(** * Stats: a sliding-window container of timestamped values

    Shallow embedding of [src/include/Stats.hpp] (namespace [fr_benou],
    class template [Stats<T, TIMEOUT, GETTIMESTAMP>]) and verification of
    its insertion, iteration and percentile operations.

    Conventions of the embedding
    - [timestamp_type] is [std::uint64_t]: a [Z] in [0, 2^64), with the
      wrap-around of unsigned arithmetic written out ([wrap64]).
    - [statsBuckets[TIMEOUT]] is a [list] of buckets of length [TIMEOUT];
      a bucket ([std::vector<StatsPair>]) is a list of pairs.
    - A vector iterator ([sv_iterator]) is the bucket it points into and an
      offset in it. Inside one bucket two of them are equal when their
      offsets are ([sv_eqb], used by [seek]). Across buckets the source
      compares addresses: [it_neq_raw], [iterate_raw] and [view_raw] take
      the [layout] of the buckets' storage and compare addresses, while
      [it_neq], [iterate] and [view] describe the traversal when no
      element of another bucket lies at the address [end()] of the newest
      bucket.
    - The loops of the iterator ([seek], and the client loop
      [for (it = begin(); it != end(); ++it)]) take fuel; the fuel used by
      [view] is proved sufficient.
    - [get_p] returns an [outcome]: a value, the exception
      [std::out_of_range], or an access outside the scratch vector. *)

From Stdlib Require Import ZArith List Bool Arith Lia Permutation Sorted.
Import ListNotations.

Set Implicit Arguments.

(** ** Machine integers *)

Definition timestamp_type : Type := Z.

(** Wrap-around of [std::uint64_t] and of [size_type]. *)
Definition wrap64 (z : Z) : Z := (z mod 2 ^ 64)%Z.

Definition is_timestamp (ts : Z) : Prop := (0 <= ts < 2 ^ 64)%Z.

(** ** The value type

    The template parameter [T] must be value-initialisable
    ([std::vector<T> v(sz)]) and ordered by [operator<]
    ([std::nth_element]). *)

Class ValueType (T : Type) : Type := {
  value_init : T;
  less : T -> T -> bool
}.

#[export] Instance Z_ValueType : ValueType Z := {
  value_init := 0%Z;
  less := Z.ltb
}.

(** ** Option as the monad of partial steps *)

Definition obind {A B : Type} (o : option A) (k : A -> option B) : option B :=
  match o with
  | Some a => k a
  | None => None
  end.

Notation "x <- o ;; k" := (obind o (fun x => k))
  (at level 61, o at next level, right associativity).

(** ** Array helpers *)

(** [a[i] = x] on an array modelled as a list; the callers only use
    indices below the length. *)
Fixpoint assign {A : Type} (i : nat) (x : A) (a : list A) : list A :=
  match a with
  | [] => []
  | y :: a' =>
    match i with
    | O => x :: a'
    | S i' => y :: assign i' x a'
    end
  end.

Fixpoint take_while {A : Type} (f : A -> bool) (l : list A) : list A :=
  match l with
  | [] => []
  | x :: l' => if f x then x :: take_while f l' else []
  end.

Section StatsModel.

Context {T : Type}.

(** [TIMEOUT]: the template parameter, the number of buckets. *)
Variable TIMEOUT : nat.

Definition StatsPair : Type := (timestamp_type * T)%type.
Definition StatsVector : Type := list StatsPair.

(** The only data member: [StatsVector statsBuckets[TIMEOUT]]. *)
Definition Stats : Type := list StatsVector.

Definition statsBuckets (s : Stats) (i : nat) : StatsVector := nth i s [].

(** A freshly constructed container. *)
Definition empty_stats : Stats := repeat [] TIMEOUT.

(** *** size, clear, add *)

(** [size()]: the loop [for i: sz += statsBuckets[i].size()]. *)
Definition size (s : Stats) : nat :=
  fold_left (fun sz i => sz + length (statsBuckets s i)) (seq 0 TIMEOUT) 0.

(** [clear()]: the loop [for i: statsBuckets[i].clear()]. *)
Definition clear (s : Stats) : Stats :=
  fold_left (fun s' i => assign i [] s') (seq 0 TIMEOUT) s.

(** [int index = ts % TIMEOUT]. *)
Definition bucket_index (ts : timestamp_type) : nat :=
  Z.to_nat (ts mod Z.of_nat TIMEOUT).

(** [add(StatsPair)]:
    [if (!bucket.empty() && ts != bucket[0].first) bucket.clear();
     bucket.push_back(statsPair);] *)
Definition add (s : Stats) (statsPair : StatsPair) : Stats :=
  let ts := fst statsPair in
  let index := bucket_index ts in
  let bucket := statsBuckets s index in
  let bucket :=
    match bucket with
    | first :: _ => if negb (ts =? fst first)%Z then [] else bucket
    | [] => bucket
    end in
  assign index (bucket ++ [statsPair]) s.

(** [add(ts, val)]. *)
Definition add_ts (s : Stats) (ts : timestamp_type) (val : T) : Stats :=
  add s (ts, val).

(** [add(val)] with the clock functor [GETTIMESTAMP] read as [now]. *)
Definition add_now (now : timestamp_type) (s : Stats) (val : T) : Stats :=
  add_ts s now val.

(** *** The compound iterator *)

Record sv_iterator : Type := {
  sv_bucket : nat;
  sv_offset : nat
}.

Definition sv_eqb (a b : sv_iterator) : bool :=
  (sv_bucket a =? sv_bucket b) && (sv_offset a =? sv_offset b).

Definition sv_begin (i : nat) : sv_iterator :=
  {| sv_bucket := i; sv_offset := 0 |}.

Definition sv_end (s : Stats) (i : nat) : sv_iterator :=
  {| sv_bucket := i; sv_offset := length (statsBuckets s i) |}.

Definition sv_deref (s : Stats) (c : sv_iterator) : option StatsPair :=
  nth_error (statsBuckets s (sv_bucket c)) (sv_offset c).

Record statsBucketsIterator : Type := {
  current : sv_iterator;
  ts_min : timestamp_type;
  index : nat;
  index_max : nat
}.

(** One turn of the constructor's loop over the buckets. *)
Definition ctor_step (s : Stats) (acc : timestamp_type * nat) (i : nat)
  : timestamp_type * nat :=
  match statsBuckets s i with
  | first :: _ => if (fst acc <? fst first)%Z then (fst first, i) else acc
  | [] => acc
  end.

(** The pair [(max, index_max)] at the end of the constructor's loop. *)
Definition ctor_scan (s : Stats) : timestamp_type * nat :=
  fold_left (ctor_step s) (seq 0 TIMEOUT) (0%Z, 0).

(** [statsBucketsIterator(const Stats *stats)]; [current] is left
    uninitialised by the constructor and set by [begin]/[end]. *)
Definition make_iterator (s : Stats) : statsBucketsIterator :=
  let '(max, imax) := ctor_scan s in
  {| current := sv_begin 0;
     ts_min := wrap64 (max - Z.of_nat TIMEOUT);
     index := 0;
     index_max := imax |}.

Definition next_ (i : nat) : nat := (i + 1) mod TIMEOUT.

(** The guard of the loop in [seek]. *)
Definition seek_guard (s : Stats) (it : statsBucketsIterator) : bool :=
  (sv_eqb (current it) (sv_end s (index it))
   || match sv_deref s (current it) with
      | Some sp => (fst sp <? ts_min it)%Z
      | None => false
      end)
  && negb (index it =? index_max it).

Definition seek_body (it : statsBucketsIterator) : statsBucketsIterator :=
  let i := next_ (index it) in
  {| current := sv_begin i;
     ts_min := ts_min it;
     index := i;
     index_max := index_max it |}.

(** [seek()]; [None] when the fuel runs out. *)
Fixpoint seek (fuel : nat) (s : Stats) (it : statsBucketsIterator)
  : option statsBucketsIterator :=
  if seek_guard s it then
    match fuel with
    | O => None
    | S fuel' => seek fuel' s (seek_body it)
    end
  else Some it.

(** [begin()] of the iterator. *)
Definition it_begin (s : Stats) (it : statsBucketsIterator)
  : option statsBucketsIterator :=
  let i := next_ (index_max it) in
  seek TIMEOUT s
    {| current := sv_begin i;
       ts_min := ts_min it;
       index := i;
       index_max := index_max it |}.

(** [end()] of the iterator. *)
Definition it_end (s : Stats) (it : statsBucketsIterator)
  : statsBucketsIterator :=
  {| current := sv_end s (index_max it);
     ts_min := ts_min it;
     index := index_max it;
     index_max := index_max it |}.

(** [operator++]. *)
Definition it_incr (s : Stats) (it : statsBucketsIterator)
  : option statsBucketsIterator :=
  seek TIMEOUT s
    {| current := {| sv_bucket := sv_bucket (current it);
                     sv_offset := S (sv_offset (current it)) |};
       ts_min := ts_min it;
       index := index it;
       index_max := index_max it |}.

(** [operator*]; [None] when [current] points at no element. *)
Definition it_deref (s : Stats) (it : statsBucketsIterator)
  : option StatsPair :=
  sv_deref s (current it).

(** [operator!=] when the storage of the two buckets does not abut:
    [current] compared as bucket and offset. The comparison of the
    addresses themselves is [it_neq_raw] below. *)
Definition it_neq (a b : statsBucketsIterator) : bool :=
  negb (sv_eqb (current a) (current b)).

(** [Stats::begin()] and [Stats::end()]. *)
Definition begin_ (s : Stats) : option statsBucketsIterator :=
  it_begin s (make_iterator s).

Definition end_ (s : Stats) : statsBucketsIterator :=
  it_end s (make_iterator s).

(** The loop [for (; first != last; ++first) yield *first]. *)
Fixpoint iterate (fuel : nat) (s : Stats)
         (first last : statsBucketsIterator) : option (list StatsPair) :=
  if it_neq first last then
    match fuel with
    | O => None
    | S fuel' =>
      sp <- it_deref s first ;;
      first' <- it_incr s first ;;
      rest <- iterate fuel' s first' last ;;
      Some (sp :: rest)
    end
  else Some [].

(** The sequence of samples from [begin()] to [end()]. *)
Definition view (s : Stats) : option (list StatsPair) :=
  first <- begin_ s ;;
  iterate (size s) s first (end_ s).

(** *** Iterators as addresses *)

(** Where the storage of the buckets lies: [data_ptr i] is the address
    of the first element of [statsBuckets[i]] (what [begin()] of that
    vector returns, null for a vector without storage) and [elem_size]
    is [sizeof(StatsPair)]. *)
Record layout : Type := {
  data_ptr : nat -> Z;
  elem_size : positive
}.

(** The address a vector iterator holds. *)
Definition sv_address (L : layout) (c : sv_iterator) : Z :=
  (data_ptr L (sv_bucket c) + Z.pos (elem_size L) * Z.of_nat (sv_offset c))%Z.

(** [operator!=]: [this->current != other.current], two vector iterators
    compared as addresses, whichever buckets they point into. *)
Definition it_neq_raw (L : layout) (a b : statsBucketsIterator) : bool :=
  negb (sv_address L (current a) =? sv_address L (current b))%Z.

(** The loop [for (; first != last; ++first) yield *first] with that
    comparison. *)
Fixpoint iterate_raw (L : layout) (fuel : nat) (s : Stats)
         (first last : statsBucketsIterator) : option (list StatsPair) :=
  if it_neq_raw L first last then
    match fuel with
    | O => None
    | S fuel' =>
      sp <- it_deref s first ;;
      first' <- it_incr s first ;;
      rest <- iterate_raw L fuel' s first' last ;;
      Some (sp :: rest)
    end
  else Some [].

(** The sequence of samples from [begin()] to [end()] under the layout
    [L]. *)
Definition view_raw (L : layout) (s : Stats) : option (list StatsPair) :=
  first <- begin_ s ;;
  iterate_raw L (size s) s first (end_ s).

(** *** Percentile *)

Context `{ValueType T}.

Inductive outcome : Type :=
| Value (v : T)
| Throw_out_of_range
| Out_of_bounds (index length : nat)
| No_result.

Fixpoint insert_sorted (x : T) (l : list T) : list T :=
  match l with
  | [] => [x]
  | y :: l' => if less y x then y :: insert_sorted x l' else x :: l
  end.

(** The ascending arrangement of a vector under [operator<]. *)
Definition sorted (l : list T) : list T := fold_right insert_sorted [] l.

(** [std::transform(first, last, v.begin(), f)]: overwrites [v] from its
    first slot on; [None] when it would write past the end of [v]. *)
Fixpoint transform {A : Type} (f : A -> T) (src : list A) (v : list T)
  : option (list T) :=
  match src with
  | [] => Some v
  | x :: src' =>
    match v with
    | [] => None
    | _ :: v' => v'' <- transform f src' v' ;; Some (f x :: v'')
    end
  end.

(** [size_type index = (sz * p + 99) / 100], in [size_type]
    arithmetic. *)
Definition percentile_index (sz : nat) (p : Z) : nat :=
  Z.to_nat (wrap64 (Z.of_nat sz * p + 99) / 100).

(** [get_p(p)]. After [std::nth_element(v.begin(), v.begin()+index,
    v.end())] the slot [index] holds the element of that rank in
    ascending order; [v[index]] with [index >= v.size()] is an access
    outside the vector. *)
Definition get_p (s : Stats) (p : Z) : outcome :=
  let sz := size s in
  if sz =? 0 then Throw_out_of_range
  else
    match view s with
    | None => No_result
    | Some samples =>
      match transform snd samples (repeat value_init sz) with
      | None => Out_of_bounds sz sz
      | Some v =>
        let index := percentile_index sz p in
        match nth_error (sorted v) index with
        | Some x => Value x
        | None => Out_of_bounds index sz
        end
      end
    end.

Definition get_p70 (s : Stats) : outcome := get_p s 70.

End StatsModel.

Arguments StatsPair T : clear implicits.
Arguments StatsVector T : clear implicits.
Arguments Stats T : clear implicits.
Arguments outcome T : clear implicits.
Arguments Value {T} v.
Arguments Throw_out_of_range {T}.
Arguments Out_of_bounds {T} index length.
Arguments No_result {T}.
Arguments bucket_index TIMEOUT%_nat_scope ts%_Z_scope.
Arguments add_ts {T} TIMEOUT%_nat_scope s ts%_Z_scope val.

(** ** Specification-level vocabulary *)

Section StatsSpec.

Context {T : Type}.
Variable TIMEOUT : nat.

(** The template parameter is a positive [int]. *)
Definition valid_TIMEOUT : Prop :=
  1 <= TIMEOUT /\ (Z.of_nat TIMEOUT < 2 ^ 31)%Z.

(** *** Mutations and reachable states *)

Inductive op : Type :=
| Add (sp : StatsPair T)
| Clear.

Definition exec (s : Stats T) (o : op) : Stats T :=
  match o with
  | Add sp => add TIMEOUT s sp
  | Clear => clear TIMEOUT s
  end.

Definition run (ops : list op) : Stats T :=
  fold_left exec ops (empty_stats TIMEOUT).

Definition valid_op (o : op) : Prop :=
  match o with
  | Add sp => is_timestamp (fst sp)
  | Clear => True
  end.

(** A state is reachable when calls of [add] and [clear] on a fresh
    container produce it. *)
Definition reachable (s : Stats T) : Prop :=
  exists ops, Forall valid_op ops /\ s = run ops.

(** The pairs passed to [add], in call order. *)
Definition added (ops : list op) : list (StatsPair T) :=
  flat_map (fun o => match o with Add sp => [sp] | Clear => [] end) ops.

(** *** Representation invariant *)

(** Every sample of bucket [i] has a timestamp congruent to [i], and
    the samples of one bucket share their timestamp. *)
Definition bucket_wf (i : nat) (b : StatsVector T) : Prop :=
  forall x, In x b ->
    is_timestamp (fst x)
    /\ bucket_index TIMEOUT (fst x) = i
    /\ forall y, In y b -> fst y = fst x.

Definition wf (s : Stats T) : Prop :=
  length s = TIMEOUT /\ forall i, bucket_wf i (statsBuckets s i).

(** *** Stored and live samples *)

Definition stored (s : Stats T) (x : StatsPair T) : Prop :=
  exists i, In x (statsBuckets s i).

(** The maximum of the timestamps of a sequence of samples. *)
Definition t_max (l : list (StatsPair T)) : Z :=
  fold_right Z.max 0%Z (map fst l).

(** Freshness rule: a stored sample is live when its timestamp is
    above [t_max - W], [t_max] being the maximum stored timestamp. *)
Definition live (s : Stats T) (x : StatsPair T) : Prop :=
  stored s x /\ (t_max (concat s) - Z.of_nat TIMEOUT < fst x)%Z.

(** Order of the traversal, and the samples of one second. *)
Definition ts_le (x y : StatsPair T) : Prop := (fst x <= fst y)%Z.

Definition same_ts (t : timestamp_type) (x : StatsPair T) : bool :=
  (fst x =? t)%Z.

(** The samples of the [W] seconds ending at [now]. *)
Definition recent (now : timestamp_type) (x : StatsPair T) : bool :=
  (now - Z.of_nat TIMEOUT <? fst x)%Z.

(** *** The window, declaratively *)

Definition fresh (tmin : timestamp_type) (sp : StatsPair T) : bool :=
  negb (fst sp <? tmin)%Z.

(** The bucket [d] steps before [imax] in ring order. *)
Definition ring_index (imax d : nat) : nat :=
  if d <=? imax then imax - d else imax + TIMEOUT - d.

(** What the traversal takes from bucket [i]. *)
Definition chunk (s : Stats T) (imax : nat) (tmin : timestamp_type)
           (i : nat) : list (StatsPair T) :=
  if i =? imax then statsBuckets s i
  else take_while (fresh tmin) (statsBuckets s i).

(** No sample the traversal can stop on outside the bucket [index_max]
    is stored at the address [end()] of that bucket. *)
Definition separated (L : layout) (s : Stats T) : bool :=
  let imax := snd (ctor_scan TIMEOUT s) in
  let tmin := wrap64 (fst (ctor_scan TIMEOUT s) - Z.of_nat TIMEOUT) in
  let e := sv_address L (sv_end s imax) in
  forallb
    (fun i =>
       (i =? imax)
       || forallb
            (fun c =>
               match nth_error (statsBuckets s i) c with
               | Some x =>
                 negb (fresh tmin x)
                 || negb (sv_address L {| sv_bucket := i; sv_offset := c |}
                          =? e)%Z
               | None => true
               end)
            (seq 0 (length (statsBuckets s i))))
    (seq 0 TIMEOUT).

Fixpoint window_from (s : Stats T) (imax : nat) (tmin : timestamp_type)
         (d : nat) : list (StatsPair T) :=
  match d with
  | O => chunk s imax tmin imax
  | S d' => chunk s imax tmin (ring_index imax d) ++ window_from s imax tmin d'
  end.

Definition window (s : Stats T) : list (StatsPair T) :=
  window_from s (snd (ctor_scan TIMEOUT s))
              (wrap64 (fst (ctor_scan TIMEOUT s) - Z.of_nat TIMEOUT))
              (TIMEOUT - 1).

(** The iterator standing in the bucket [d] steps before [imax], at
    offset [c]. *)
Definition iterator_at (imax : nat) (tmin : timestamp_type) (d c : nat)
  : statsBucketsIterator :=
  {| current := {| sv_bucket := ring_index imax d; sv_offset := c |};
     ts_min := tmin;
     index := ring_index imax d;
     index_max := imax |}.

(** What remains to be yielded from that position. *)
Definition remaining (s : Stats T) (imax : nat) (tmin : timestamp_type)
           (d c : nat) : list (StatsPair T) :=
  match d with
  | O => skipn c (statsBuckets s imax)
  | S d' =>
    take_while (fresh tmin) (skipn c (statsBuckets s (ring_index imax d)))
    ++ window_from s imax tmin d'
  end.

(** A position [seek] leaves the iterator in. *)
Definition settled (s : Stats T) (imax : nat) (tmin : timestamp_type)
           (d c : nat) : Prop :=
  c <= length (statsBuckets s (ring_index imax d))
  /\ (d <> 0 ->
      exists x, nth_error (statsBuckets s (ring_index imax d)) c = Some x
                /\ fresh tmin x = true).

(** *** Survivors of a sequence of insertions *)

(** The state after a sequence of [add] calls on a fresh container. *)
Definition add_all (h : list (StatsPair T)) : Stats T :=
  fold_left (add TIMEOUT) h (empty_stats TIMEOUT).

Definition in_bucket (i : nat) (x : StatsPair T) : bool :=
  bucket_index TIMEOUT (fst x) =? i.

(** [y], added later, evicts [x]: same bucket, another timestamp. *)
Definition evicts (y x : StatsPair T) : bool :=
  (bucket_index TIMEOUT (fst y) =? bucket_index TIMEOUT (fst x))
  && negb (fst y =? fst x)%Z.

Definition survives (later : list (StatsPair T)) (x : StatsPair T) : bool :=
  forallb (fun y => negb (evicts y x)) later.

(** The [add] calls that no later call evicted. *)
Fixpoint survivors (h : list (StatsPair T)) : list (StatsPair T) :=
  match h with
  | [] => []
  | x :: later =>
    if survives later x then x :: survivors later else survivors later
  end.

End StatsSpec.

Arguments op T : clear implicits.
Arguments Clear {T}.

(** ** Scenarios *)

(** Ten values added in the same second. *)
Definition scenario_same_second : Stats Z :=
  add_all 60 (map (fun v => (1000, v)%Z) [1; 2; 3; 4; 5; 6; 7; 8; 9; 10]%Z).

(** Three samples in two buckets. *)
Definition scenario_three : Stats Z :=
  add_all 60 [(1000, 10); (1000, 20); (1030, 30)]%Z.

(** A hundred samples [0..99] added in the same second. *)
Definition scenario_hundred : Stats Z :=
  add_all 60 (map (fun v => (2000, Z.of_nat v)%Z) (seq 0 100)).

(** An old sample lingers in its bucket when a newer one arrives
    elsewhere. *)
Definition scenario_lingering : Stats Z :=
  add_all 60 [(1000, 5); (1061, 7)]%Z.

(** Two buckets filled in consecutive seconds. *)
Definition scenario_neighbours : Stats Z :=
  add_all 60 [(1001, 1); (1060, 2); (1061, 3)]%Z.

(** Storage blocks of pairs of 16 bytes, one page apart. *)
Definition spaced_layout : layout :=
  {| data_ptr := fun i => (4096 * Z.of_nat (S i))%Z; elem_size := 16 |}.

(** Storage blocks of one pair of 16 bytes each, packed in decreasing
    bucket order: the block of bucket [i] ends where the block of bucket
    [i - 1] begins. *)
Definition packed_layout : layout :=
  {| data_ptr := fun i => (16 * (64 - Z.of_nat i))%Z; elem_size := 16 |}.

(** Two samples within the first minute of the epoch. *)
Definition scenario_epoch {T : Type} (a b : T) : Stats T :=
  add_all 60 [(0%Z, a); (59%Z, b)].

(** * Proofs *)

(** ** Arrays *)

Section ArrayFacts.

Context {A : Type}.

Lemma assign_length (i : nat) (x : A) (a : list A) :
  length (assign i x a) = length a.
Proof.
  revert i; induction a as [|y a IH]; intros [|i]; simpl; auto.
Qed.

Lemma nth_assign_same (i : nat) (x : A) (a : list A) (d : A) :
  i < length a -> nth i (assign i x a) d = x.
Proof.
  revert i; induction a as [|y a IH]; intros [|i] Hi; simpl in *;
    try lia; auto.
  apply IH; lia.
Qed.

Lemma nth_assign_other (i j : nat) (x : A) (a : list A) (d : A) :
  i <> j -> nth j (assign i x a) d = nth j a d.
Proof.
  revert i j; induction a as [|y a IH]; intros [|i] [|j] Hij; simpl;
    try reflexivity; try congruence.
  apply IH; congruence.
Qed.

Lemma firstn_snoc_nth (n : nat) (a : list A) (d : A) :
  n < length a -> firstn (S n) a = firstn n a ++ [nth n a d].
Proof.
  revert n; induction a as [|y a IH]; intros [|n] Hn; simpl in *;
    try lia; auto.
  f_equal. apply IH. lia.
Qed.

Lemma take_while_incl (f : A -> bool) (l : list A) (x : A) :
  In x (take_while f l) -> In x l /\ f x = true.
Proof.
  induction l as [|y l IH]; simpl; [tauto|].
  destruct (f y) eqn:E; simpl; [|tauto].
  intros [->|Hx]; auto. destruct (IH Hx); auto.
Qed.

Lemma take_while_all (f : A -> bool) (l : list A) :
  (forall x, In x l -> f x = true) -> take_while f l = l.
Proof.
  induction l as [|y l IH]; simpl; intros Hall; [reflexivity|].
  rewrite Hall by auto. f_equal. apply IH. auto.
Qed.

Lemma take_while_length (f : A -> bool) (l : list A) :
  length (take_while f l) <= length l.
Proof.
  induction l as [|y l IH]; simpl; [lia|].
  destruct (f y); simpl; lia.
Qed.

End ArrayFacts.

(** ** size, clear and add on the bucket array *)

Section RingFacts.

Context {T : Type}.
Variable TIMEOUT : nat.
Hypothesis TIMEOUT_ok : valid_TIMEOUT TIMEOUT.

Lemma statsBuckets_beyond (s : Stats T) (i : nat) :
  length s <= i -> statsBuckets s i = [].
Proof. intros Hi. unfold statsBuckets. now apply nth_overflow. Qed.

Lemma bucket_index_lt (ts : Z) : bucket_index TIMEOUT ts < TIMEOUT.
Proof.
  destruct TIMEOUT_ok as [Hpos _]. unfold bucket_index.
  assert (0 <= ts mod Z.of_nat TIMEOUT < Z.of_nat TIMEOUT)%Z
    by (apply Z.mod_pos_bound; lia).
  lia.
Qed.

Lemma bucket_index_Z (ts : Z) :
  Z.of_nat (bucket_index TIMEOUT ts) = (ts mod Z.of_nat TIMEOUT)%Z.
Proof.
  destruct TIMEOUT_ok as [Hpos _]. unfold bucket_index.
  assert (0 <= ts mod Z.of_nat TIMEOUT < Z.of_nat TIMEOUT)%Z
    by (apply Z.mod_pos_bound; lia).
  lia.
Qed.

(** State of the loop of [size] after [n] turns. *)
Lemma size_loop (s : Stats T) (n : nat) :
  n <= length s ->
  fold_left (fun sz i => sz + length (statsBuckets s i)) (seq 0 n) 0
  = length (concat (firstn n s)).
Proof.
  induction n as [|n IH]; intros Hn; [reflexivity|].
  rewrite seq_S, fold_left_app, (firstn_snoc_nth s []) by lia.
  rewrite concat_app, length_app. simpl. rewrite IH by lia.
  rewrite app_nil_r. reflexivity.
Qed.

Lemma size_concat (s : Stats T) :
  length s = TIMEOUT -> size TIMEOUT s = length (concat s).
Proof.
  intros Hlen. unfold size. rewrite size_loop by lia.
  rewrite <- Hlen, firstn_all. reflexivity.
Qed.

Lemma stored_concat (s : Stats T) (x : StatsPair T) :
  stored s x <-> In x (concat s).
Proof.
  unfold stored, statsBuckets. rewrite in_concat. split.
  - intros [i Hi]. exists (nth i s []). split; [|exact Hi].
    destruct (Nat.lt_ge_cases i (length s)) as [Hlt|Hge].
    + now apply nth_In.
    + rewrite nth_overflow in Hi by lia. destruct Hi.
  - intros [b [Hb Hx]]. destruct (In_nth s b [] Hb) as [i [_ Hi]].
    exists i. now rewrite Hi.
Qed.

(** State of the loop of [clear] after [n] turns. *)
Lemma clear_loop (s : Stats T) (n : nat) :
  let s' := fold_left (fun s' i => assign i [] s') (seq 0 n) s in
  length s' = length s
  /\ forall i, statsBuckets s' i = if i <? n then [] else statsBuckets s i.
Proof.
  induction n as [|n IH]; cbv zeta in *.
  - split; [reflexivity|]. intros i. reflexivity.
  - rewrite seq_S, fold_left_app. simpl.
    destruct IH as [IHlen IHnth]. split.
    + now rewrite assign_length.
    + intros i. unfold statsBuckets in *.
      destruct (Nat.eq_dec n i) as [->|Hne].
      * replace (i <? S i) with true by (symmetry; apply Nat.ltb_lt; lia).
        destruct (Nat.lt_ge_cases i (length s)) as [Hlt|Hge].
        -- apply nth_assign_same.
           apply Nat.lt_le_trans with (length s); [exact Hlt|].
           apply Nat.eq_le_incl. symmetry. exact IHlen.
        -- apply nth_overflow. rewrite assign_length.
           apply Nat.le_trans with (length s); [|exact Hge].
           apply Nat.eq_le_incl. exact IHlen.
      * rewrite nth_assign_other by assumption. rewrite IHnth.
        destruct (i <? n) eqn:E1, (i <? S n) eqn:E2; try reflexivity.
        -- apply Nat.ltb_lt in E1. apply Nat.ltb_ge in E2. lia.
        -- apply Nat.ltb_ge in E1. apply Nat.ltb_lt in E2. lia.
Qed.

Lemma clear_length (s : Stats T) : length (clear TIMEOUT s) = length s.
Proof. apply (clear_loop s TIMEOUT). Qed.

Lemma clear_bucket (s : Stats T) (i : nat) :
  length s = TIMEOUT -> statsBuckets (clear TIMEOUT s) i = [].
Proof.
  intros Hlen. destruct (clear_loop s TIMEOUT) as [_ Hnth].
  unfold clear. rewrite Hnth.
  destruct (i <? TIMEOUT) eqn:E; [reflexivity|].
  apply Nat.ltb_ge in E. apply statsBuckets_beyond. lia.
Qed.

Lemma empty_length : length (@empty_stats T TIMEOUT) = TIMEOUT.
Proof. apply repeat_length. Qed.

Lemma empty_bucket (i : nat) : statsBuckets (@empty_stats T TIMEOUT) i = [].
Proof.
  unfold statsBuckets, empty_stats.
  destruct (Nat.lt_ge_cases i TIMEOUT) as [Hlt|Hge].
  - now apply nth_repeat_lt.
  - apply nth_overflow. rewrite repeat_length. lia.
Qed.

Lemma add_length (s : Stats T) (sp : StatsPair T) :
  length (add TIMEOUT s sp) = length s.
Proof. unfold add. apply assign_length. Qed.

(** The bucket [add] writes. *)
Lemma add_bucket_same (s : Stats T) (sp : StatsPair T) :
  length s = TIMEOUT ->
  statsBuckets (add TIMEOUT s sp) (bucket_index TIMEOUT (fst sp))
  = match statsBuckets s (bucket_index TIMEOUT (fst sp)) with
    | first :: rest =>
      if (fst sp =? fst first)%Z then first :: rest else []
    | [] => []
    end ++ [sp].
Proof.
  intros Hlen. unfold add, statsBuckets at 1.
  rewrite nth_assign_same by (rewrite Hlen; apply bucket_index_lt).
  destruct (statsBuckets s (bucket_index TIMEOUT (fst sp))) as [|first rest];
    [reflexivity|].
  destruct (fst sp =? fst first)%Z; reflexivity.
Qed.

(** The buckets [add] leaves alone. *)
Lemma add_bucket_other (s : Stats T) (sp : StatsPair T) (i : nat) :
  i <> bucket_index TIMEOUT (fst sp) ->
  statsBuckets (add TIMEOUT s sp) i = statsBuckets s i.
Proof.
  intros Hi. unfold add, statsBuckets at 1.
  now rewrite nth_assign_other by congruence.
Qed.

(** *** The representation invariant holds in reachable states *)

Lemma wf_empty : wf TIMEOUT (@empty_stats T TIMEOUT).
Proof.
  split; [apply empty_length|].
  intros i x Hx. rewrite empty_bucket in Hx. destruct Hx.
Qed.

Lemma wf_clear (s : Stats T) : wf TIMEOUT s -> wf TIMEOUT (clear TIMEOUT s).
Proof.
  intros [Hlen _]. split; [now rewrite clear_length|].
  intros i x Hx. rewrite clear_bucket in Hx by assumption. destruct Hx.
Qed.

Lemma wf_add (s : Stats T) (sp : StatsPair T) :
  wf TIMEOUT s -> is_timestamp (fst sp) -> wf TIMEOUT (add TIMEOUT s sp).
Proof.
  intros [Hlen Hb] Hts. split; [now rewrite add_length|].
  intros i. destruct (Nat.eq_dec i (bucket_index TIMEOUT (fst sp))) as [->|Hne].
  - rewrite add_bucket_same by assumption.
    specialize (Hb (bucket_index TIMEOUT (fst sp))).
    destruct (statsBuckets s (bucket_index TIMEOUT (fst sp)))
      as [|first rest] eqn:Eb.
    + intros x [<-|[]]. split; [exact Hts|]. split; [reflexivity|].
      intros y [<-|[]]. reflexivity.
    + destruct (Z.eqb_spec (fst sp) (fst first)) as [Heq|Hneq].
      * assert (Hfirst : forall y, In y (first :: rest) -> fst y = fst sp).
        { intros y Hy. destruct (Hb first (or_introl eq_refl)) as [_ [_ Hall]].
          rewrite Heq. now apply Hall. }
        intros x Hx. apply in_app_or in Hx.
        assert (Hxts : fst x = fst sp).
        { destruct Hx as [Hx|[<-|[]]]; auto. }
        rewrite Hxts. split; [exact Hts|]. split; [reflexivity|].
        intros y Hy. apply in_app_or in Hy.
        destruct Hy as [Hy|[<-|[]]]; auto.
      * intros x [<-|[]]. split; [exact Hts|]. split; [reflexivity|].
        intros y [<-|[]]. reflexivity.
  - rewrite add_bucket_other by assumption. apply Hb.
Qed.

Lemma wf_exec (s : Stats T) (o : op T) :
  wf TIMEOUT s -> valid_op o -> wf TIMEOUT (exec TIMEOUT s o).
Proof.
  destruct o as [sp|]; simpl; intros Hwf Hv.
  - now apply wf_add.
  - now apply wf_clear.
Qed.

Lemma run_snoc (ops : list (op T)) (o : op T) :
  run TIMEOUT (ops ++ [o]) = exec TIMEOUT (run TIMEOUT ops) o.
Proof. unfold run. now rewrite fold_left_app. Qed.

Lemma wf_run (ops : list (op T)) :
  Forall valid_op ops -> wf TIMEOUT (run TIMEOUT ops).
Proof.
  induction ops as [|o ops IH] using rev_ind; intros Hv.
  - apply wf_empty.
  - rewrite run_snoc. apply Forall_app in Hv. destruct Hv as [Hv Ho].
    apply wf_exec; [now apply IH|]. now inversion Ho.
Qed.

Lemma wf_reachable (s : Stats T) : reachable TIMEOUT s -> wf TIMEOUT s.
Proof. intros [ops [Hv ->]]. now apply wf_run. Qed.

End RingFacts.

(** ** The iterator *)

Section IteratorFacts.

Context {T : Type}.
Variable TIMEOUT : nat.
Hypothesis TIMEOUT_ok : valid_TIMEOUT TIMEOUT.

Lemma next_step (i : nat) : S i < TIMEOUT -> next_ TIMEOUT i = S i.
Proof.
  intros Hi. unfold next_. rewrite Nat.add_1_r. now apply Nat.mod_small.
Qed.

Lemma next_wrap (i : nat) : S i = TIMEOUT -> next_ TIMEOUT i = 0.
Proof.
  intros Hi. unfold next_. rewrite Nat.add_1_r, Hi.
  apply Nat.Div0.mod_same.
Qed.

Lemma ring_index_0 (imax : nat) : ring_index TIMEOUT imax 0 = imax.
Proof. unfold ring_index. simpl. apply Nat.sub_0_r. Qed.

Lemma ring_index_lt (imax d : nat) :
  imax < TIMEOUT -> d < TIMEOUT -> ring_index TIMEOUT imax d < TIMEOUT.
Proof. unfold ring_index. destruct (Nat.leb_spec d imax); lia. Qed.

Lemma ring_index_neq (imax d : nat) :
  imax < TIMEOUT -> d < TIMEOUT -> d <> 0 ->
  ring_index TIMEOUT imax d <> imax.
Proof. unfold ring_index. destruct (Nat.leb_spec d imax); lia. Qed.

Lemma ring_index_inj (imax d d' : nat) :
  imax < TIMEOUT -> d < TIMEOUT -> d' < TIMEOUT ->
  ring_index TIMEOUT imax d = ring_index TIMEOUT imax d' -> d = d'.
Proof.
  unfold ring_index.
  destruct (Nat.leb_spec d imax), (Nat.leb_spec d' imax); lia.
Qed.

(** Every bucket is met by the traversal. *)
Lemma ring_index_surj (imax i : nat) :
  imax < TIMEOUT -> i < TIMEOUT ->
  exists d, d < TIMEOUT /\ ring_index TIMEOUT imax d = i.
Proof.
  intros Hm Hi. destruct (Nat.le_gt_cases i imax) as [Hle|Hgt].
  - exists (imax - i). unfold ring_index.
    destruct (Nat.leb_spec (imax - i) imax); lia.
  - exists (imax + TIMEOUT - i). unfold ring_index.
    destruct (Nat.leb_spec (imax + TIMEOUT - i) imax); lia.
Qed.

Lemma ring_index_next (imax d : nat) :
  imax < TIMEOUT -> S d < TIMEOUT ->
  next_ TIMEOUT (ring_index TIMEOUT imax (S d)) = ring_index TIMEOUT imax d.
Proof.
  intros Hm Hd. unfold ring_index.
  destruct (Nat.leb_spec (S d) imax), (Nat.leb_spec d imax); try lia.
  - rewrite next_step by lia. lia.
  - rewrite next_wrap by lia. lia.
  - rewrite next_step by lia. lia.
Qed.

Lemma ring_index_start (imax : nat) :
  imax < TIMEOUT ->
  next_ TIMEOUT imax = ring_index TIMEOUT imax (TIMEOUT - 1).
Proof.
  intros Hm. unfold ring_index.
  destruct (Nat.leb_spec (TIMEOUT - 1) imax).
  - rewrite next_wrap by lia. lia.
  - rewrite next_step by lia. lia.
Qed.

(** *** The constructor's scan *)

(** [index_max] after [n] turns of the loop. *)
Lemma ctor_scan_index (s : Stats T) (n : nat) :
  let acc := fold_left (ctor_step s) (seq 0 n) (0%Z, 0) in
  snd acc = 0 \/ snd acc < n.
Proof.
  induction n as [|n IH]; cbv zeta in *; [now left|].
  rewrite seq_S, fold_left_app. simpl.
  set (acc := fold_left (ctor_step s) (seq 0 n) (0%Z, 0)) in *.
  unfold ctor_step.
  destruct (statsBuckets s n) as [|first rest]; [lia|].
  destruct (_ <? _)%Z; simpl; lia.
Qed.

Lemma index_max_lt (s : Stats T) : snd (ctor_scan TIMEOUT s) < TIMEOUT.
Proof.
  destruct TIMEOUT_ok as [Hpos _].
  destruct (ctor_scan_index s TIMEOUT) as [H0|Hlt]; unfold ctor_scan; lia.
Qed.

(** [max] and [index_max] after [n] turns of the loop, when the samples
    of a bucket share their timestamp. *)
Lemma ctor_scan_loop (s : Stats T) (n : nat) :
  (forall i, bucket_wf TIMEOUT i (statsBuckets s i)) ->
  let acc := fold_left (ctor_step s) (seq 0 n) (0%Z, 0) in
  ((fst acc = 0%Z /\ snd acc = 0)
   \/ ((0 < fst acc)%Z
       /\ exists first rest,
           statsBuckets s (snd acc) = first :: rest
           /\ fst first = fst acc))
  /\ forall i x, i < n -> In x (statsBuckets s i) -> (fst x <= fst acc)%Z.
Proof.
  intros Hwf. induction n as [|n [IHacc IHle]]; cbv zeta in *.
  - split; [now left|]. intros i x Hi. lia.
  - rewrite seq_S, fold_left_app. simpl.
    set (acc := fold_left (ctor_step s) (seq 0 n) (0%Z, 0)) in *.
    assert (Hnonneg : (0 <= fst acc)%Z) by (destruct IHacc; lia).
    unfold ctor_step.
    destruct (statsBuckets s n) as [|first rest] eqn:Eb.
    + split; [exact IHacc|]. intros i x Hi Hx.
      destruct (Nat.eq_dec i n) as [->|Hne].
      * rewrite Eb in Hx. destruct Hx.
      * apply IHle with i; [lia|assumption].
    + assert (Hsame : forall x, In x (statsBuckets s n) -> fst x = fst first).
      { intros x Hx. destruct (Hwf n x Hx) as [_ [_ Hall]].
        symmetry. apply Hall. rewrite Eb. now left. }
      destruct (Z.ltb_spec (fst acc) (fst first)) as [Hlt|Hge]; simpl.
      * split.
        -- right. split; [lia|]. exists first, rest. now split.
        -- intros i x Hi Hx. destruct (Nat.eq_dec i n) as [->|Hne].
           ++ rewrite (Hsame x Hx). lia.
           ++ assert (fst x <= fst acc)%Z
                by (apply IHle with i; [lia|assumption]).
              lia.
      * split; [exact IHacc|].
        intros i x Hi Hx. destruct (Nat.eq_dec i n) as [->|Hne].
        -- rewrite (Hsame x Hx). lia.
        -- apply IHle with i; [lia|assumption].
Qed.

Section Scan.

Variable s : Stats T.
Hypothesis s_wf : wf TIMEOUT s.

Lemma scan_max_ge (x : StatsPair T) :
  stored s x -> (fst x <= fst (ctor_scan TIMEOUT s))%Z.
Proof.
  intros [i Hx]. destruct s_wf as [Hlen Hb].
  destruct (ctor_scan_loop s TIMEOUT Hb) as [_ Hle].
  apply Hle with i; [|exact Hx].
  destruct (Nat.lt_ge_cases i TIMEOUT) as [Hlt|Hge]; [exact Hlt|].
  rewrite statsBuckets_beyond in Hx by lia. destruct Hx.
Qed.

(** In a non-empty container the bucket [index_max] is not empty and
    holds the timestamp [max]. *)
Lemma scan_max_bucket (x : StatsPair T) :
  stored s x ->
  exists first rest,
    statsBuckets s (snd (ctor_scan TIMEOUT s)) = first :: rest
    /\ fst first = fst (ctor_scan TIMEOUT s).
Proof.
  intros Hx. pose proof (scan_max_ge Hx) as Hle.
  destruct Hx as [i Hx]. destruct s_wf as [Hlen Hb].
  destruct (ctor_scan_loop s TIMEOUT Hb) as [[[H0 Hi0]|[_ Hex]] _];
    [|exact Hex].
  fold (ctor_scan TIMEOUT s) in H0, Hi0.
  destruct (Hb i x Hx) as [Hts [Hidx _]]. unfold is_timestamp in Hts.
  assert (Hx0 : fst x = 0%Z) by lia.
  assert (Hi : i = 0).
  { rewrite <- Hidx at 1. rewrite Hx0. unfold bucket_index. now rewrite Zmod_0_l. }
  rewrite Hi in Hx. rewrite Hi0.
  destruct (Hb 0 x Hx) as [_ [_ Hall]].
  destruct (statsBuckets s 0) as [|first rest] eqn:Eb; [destruct Hx|].
  exists first, rest. split; [reflexivity|].
  rewrite H0, <- Hx0. apply Hall. now left.
Qed.

Lemma scan_max_timestamp : is_timestamp (fst (ctor_scan TIMEOUT s)).
Proof.
  destruct s_wf as [Hlen Hb].
  destruct (ctor_scan_loop s TIMEOUT Hb) as [[[H0 _]|[_ Hex]] _];
    fold (ctor_scan TIMEOUT s) in *.
  - rewrite H0. unfold is_timestamp. lia.
  - destruct Hex as [first [rest [Eb <-]]].
    destruct (Hb (snd (ctor_scan TIMEOUT s)) first) as [Hts _];
      [rewrite Eb; now left|exact Hts].
Qed.

Lemma scan_index_max (x : StatsPair T) :
  stored s x ->
  snd (ctor_scan TIMEOUT s)
  = bucket_index TIMEOUT (fst (ctor_scan TIMEOUT s)).
Proof.
  intros Hx. destruct (scan_max_bucket Hx) as [first [rest [Eb Hf]]].
  destruct s_wf as [_ Hb].
  destruct (Hb (snd (ctor_scan TIMEOUT s)) first) as [_ [Hidx _]];
    [rewrite Eb; now left|].
  now rewrite <- Hf, Hidx.
Qed.

Lemma scan_max_samples (y : StatsPair T) :
  In y (statsBuckets s (snd (ctor_scan TIMEOUT s))) ->
  fst y = fst (ctor_scan TIMEOUT s).
Proof.
  intros Hy.
  assert (Hst : stored s y) by (eexists; exact Hy).
  destruct (scan_max_bucket Hst) as [first [rest [Eb Hf]]].
  destruct s_wf as [_ Hb].
  destruct (Hb _ y Hy) as [_ [_ Hall]].
  rewrite <- Hf. symmetry. apply Hall. rewrite Eb. now left.
Qed.

End Scan.

End IteratorFacts.

(** ** The traversal yields the window *)

Section Traversal.

Context {T : Type}.
Variable TIMEOUT : nat.
Hypothesis TIMEOUT_ok : valid_TIMEOUT TIMEOUT.

Variable s : Stats T.
Variable imax : nat.
Variable tmin : timestamp_type.
Hypothesis imax_lt : imax < TIMEOUT.

Let last : statsBucketsIterator :=
  {| current := sv_end s imax;
     ts_min := tmin;
     index := imax;
     index_max := imax |}.

Lemma seek_unfold (fuel : nat) (it : statsBucketsIterator) :
  seek TIMEOUT fuel s it
  = if seek_guard s it then
      match fuel with
      | O => None
      | S fuel' => seek TIMEOUT fuel' s (seek_body TIMEOUT it)
      end
    else Some it.
Proof. destruct fuel; reflexivity. Qed.

Lemma iterate_unfold (fuel : nat) (first : statsBucketsIterator) :
  iterate TIMEOUT fuel s first last
  = if it_neq first last then
      match fuel with
      | O => None
      | S fuel' =>
        sp <- it_deref s first ;;
        first' <- it_incr TIMEOUT s first ;;
        rest <- iterate TIMEOUT fuel' s first' last ;;
        Some (sp :: rest)
      end
    else Some [].
Proof. destruct fuel; reflexivity. Qed.

Lemma seek_guard_at (d c : nat) :
  seek_guard s (iterator_at TIMEOUT imax tmin d c)
  = ((c =? length (statsBuckets s (ring_index TIMEOUT imax d)))
     || match nth_error (statsBuckets s (ring_index TIMEOUT imax d)) c with
        | Some sp => (fst sp <? tmin)%Z
        | None => false
        end)
    && negb (ring_index TIMEOUT imax d =? imax).
Proof.
  unfold seek_guard, iterator_at, sv_eqb, sv_end, sv_deref. simpl.
  now rewrite Nat.eqb_refl.
Qed.

Lemma seek_body_at (d c : nat) :
  S d < TIMEOUT ->
  seek_body TIMEOUT (iterator_at TIMEOUT imax tmin (S d) c)
  = iterator_at TIMEOUT imax tmin d 0.
Proof.
  intros Hd. unfold seek_body, iterator_at, sv_begin. cbn [index ts_min index_max].
  now rewrite ring_index_next.
Qed.

Lemma it_neq_at (d c : nat) :
  it_neq (iterator_at TIMEOUT imax tmin d c) last
  = negb ((ring_index TIMEOUT imax d =? imax)
          && (c =? length (statsBuckets s imax))).
Proof. reflexivity. Qed.

Lemma skipn_nth_error {A : Type} (l : list A) (c : nat) (x : A) :
  nth_error l c = Some x -> skipn c l = x :: skipn (S c) l.
Proof.
  revert c; induction l as [|y l IH]; intros [|c] Hc; simpl in *;
    try discriminate.
  - now inversion Hc.
  - now apply IH.
Qed.

Lemma remaining_start (d : nat) :
  d < TIMEOUT -> remaining TIMEOUT s imax tmin d 0 = window_from TIMEOUT s imax tmin d.
Proof.
  intros Hd. destruct d as [|d]; simpl; unfold chunk.
  - now rewrite Nat.eqb_refl.
  - destruct (Nat.eqb_spec (ring_index TIMEOUT imax (S d)) imax) as [E|_];
      [|reflexivity].
    exfalso. revert E. apply ring_index_neq; lia.
Qed.

(** Yielding the sample under the iterator. *)
Lemma remaining_step (d c : nat) (x : StatsPair T) :
  nth_error (statsBuckets s (ring_index TIMEOUT imax d)) c = Some x ->
  (d <> 0 -> fresh tmin x = true) ->
  remaining TIMEOUT s imax tmin d c
  = x :: remaining TIMEOUT s imax tmin d (S c).
Proof.
  intros Hx Hfresh. unfold remaining. destruct d as [|d].
  - rewrite ring_index_0 in Hx.
    now apply skipn_nth_error.
  - rewrite (skipn_nth_error _ _ Hx). simpl.
    rewrite Hfresh by discriminate. reflexivity.
Qed.

(** Leaving a bucket: nothing is left in it, or a stale sample is
    under the iterator. *)
Lemma remaining_leave (d c : nat) :
  S d < TIMEOUT ->
  (c =? length (statsBuckets s (ring_index TIMEOUT imax (S d))))
  || match nth_error (statsBuckets s (ring_index TIMEOUT imax (S d))) c with
     | Some sp => (fst sp <? tmin)%Z
     | None => false
     end = true ->
  c <= length (statsBuckets s (ring_index TIMEOUT imax (S d))) ->
  remaining TIMEOUT s imax tmin (S d) c
  = remaining TIMEOUT s imax tmin d 0.
Proof.
  intros Hd Hguard Hc. rewrite remaining_start by lia.
  unfold remaining.
  set (b := statsBuckets s (ring_index TIMEOUT imax (S d))) in *.
  destruct (Nat.eqb_spec c (length b)) as [->|Hne].
  - now rewrite skipn_all.
  - simpl in Hguard.
    destruct (nth_error b c) as [x|] eqn:Ex; [|discriminate].
    rewrite (skipn_nth_error _ _ Ex). simpl. unfold fresh at 1.
    now rewrite Hguard.
Qed.

(** [seek] stops, on a position that yields what was left. *)
Lemma seek_settles (fuel : nat) :
  forall d c,
    d <= fuel -> d < TIMEOUT -> c <= length (statsBuckets s (ring_index TIMEOUT imax d)) ->
    exists d' c',
      seek TIMEOUT fuel s (iterator_at TIMEOUT imax tmin d c)
      = Some (iterator_at TIMEOUT imax tmin d' c')
      /\ d' < TIMEOUT
      /\ remaining TIMEOUT s imax tmin d' c'
         = remaining TIMEOUT s imax tmin d c
      /\ settled TIMEOUT s imax tmin d' c'.
Proof.
  induction fuel as [|fuel IH]; intros d c Hfuel Hd Hc;
    rewrite seek_unfold, seek_guard_at.
  - assert (d = 0) by lia. subst d.
    rewrite ring_index_0, Nat.eqb_refl, andb_false_r.
    exists 0, c. repeat split; [lia|exact Hc|congruence].
  - destruct d as [|d].
    + rewrite ring_index_0, Nat.eqb_refl, andb_false_r.
      exists 0, c. repeat split; [lia|exact Hc|congruence].
    + destruct (Nat.eqb_spec (ring_index TIMEOUT imax (S d)) imax) as [E|_].
      { exfalso. revert E. apply ring_index_neq; lia. }
      rewrite andb_true_r.
      destruct ((c =? length (statsBuckets s (ring_index TIMEOUT imax (S d))))
                || match nth_error (statsBuckets s (ring_index TIMEOUT imax (S d))) c with
                   | Some sp => (fst sp <? tmin)%Z
                   | None => false
                   end) eqn:Hguard.
      * rewrite seek_body_at by lia.
        destruct (IH d 0) as [d' [c' [Hseek [Hd' [Hrem Hset]]]]];
          [lia|lia|lia|].
        exists d', c'. repeat split; try assumption.
        -- rewrite Hrem. symmetry. now apply remaining_leave.
        -- apply Hset.
        -- apply Hset.
      * apply orb_false_iff in Hguard. destruct Hguard as [Hne Hfresh].
        apply Nat.eqb_neq in Hne.
        exists (S d), c. repeat split; [assumption|assumption|].
        intros _.
        destruct (nth_error (statsBuckets s (ring_index TIMEOUT imax (S d))) c) as [x|] eqn:Ex.
        -- exists x. split; [reflexivity|]. unfold fresh.
           now rewrite Hfresh.
        -- apply nth_error_None in Ex. lia.
Qed.

(** The client loop yields what is left from a settled position. *)
Lemma iterate_settled (fuel : nat) :
  forall d c,
    d < TIMEOUT ->
    settled TIMEOUT s imax tmin d c ->
    length (remaining TIMEOUT s imax tmin d c) <= fuel ->
    iterate TIMEOUT fuel s (iterator_at TIMEOUT imax tmin d c) last
    = Some (remaining TIMEOUT s imax tmin d c).
Proof.
  induction fuel as [|fuel IH]; intros d c Hd [Hc Hfresh] Hlen;
    rewrite iterate_unfold, it_neq_at.
  - destruct (nth_error (statsBuckets s (ring_index TIMEOUT imax d)) c) as [x|] eqn:Ex.
    + rewrite (@remaining_step d c x) in Hlen; [simpl in Hlen; lia|exact Ex|].
      intros Hd0. destruct (Hfresh Hd0) as [x' [Ex' Hx']]. congruence.
    + destruct d as [|d].
      * apply nth_error_None in Ex.
        rewrite ring_index_0 in *.
        replace (c =? length (statsBuckets s imax)) with true
          by (symmetry; apply Nat.eqb_eq; lia).
        rewrite Nat.eqb_refl. simpl.
        rewrite skipn_all2 by lia. reflexivity.
      * destruct Hfresh as [x' [Ex' _]]; [discriminate|]. congruence.
  - destruct (nth_error (statsBuckets s (ring_index TIMEOUT imax d)) c) as [x|] eqn:Ex.
    + assert (Hx : d <> 0 -> fresh tmin x = true).
      { intros Hd0. destruct (Hfresh Hd0) as [x' [Ex' Hx']]. congruence. }
      assert (Hneq : negb ((ring_index TIMEOUT imax d =? imax)
                           && (c =? length (statsBuckets s imax))) = true).
      { destruct d as [|d].
        - assert (c < length (statsBuckets s (ring_index TIMEOUT imax 0)))
            by (apply nth_error_Some; congruence).
          rewrite ring_index_0 in H.
          replace (c =? length (statsBuckets s imax)) with false
            by (symmetry; apply Nat.eqb_neq; lia).
          now rewrite andb_false_r.
        - destruct (Nat.eqb_spec (ring_index TIMEOUT imax (S d)) imax)
            as [E|_]; [|reflexivity].
          exfalso. revert E. apply ring_index_neq; lia. }
      rewrite Hneq.
      assert (Hderef : it_deref s (iterator_at TIMEOUT imax tmin d c)
                       = Some x) by exact Ex.
      rewrite Hderef. cbn [obind].
      assert (Hc' : S c <= length (statsBuckets s (ring_index TIMEOUT imax d))).
      { assert (c < length (statsBuckets s (ring_index TIMEOUT imax d)))
          by (apply nth_error_Some; congruence). lia. }
      destruct (@seek_settles TIMEOUT d (S c)) as [d' [c' [Hseek [Hd' [Hrem Hset]]]]];
        [lia|lia|exact Hc'|].
      assert (Hincr : it_incr TIMEOUT s (iterator_at TIMEOUT imax tmin d c)
                      = Some (iterator_at TIMEOUT imax tmin d' c'))
        by exact Hseek.
      rewrite Hincr. cbn [obind].
      rewrite (@remaining_step d c x Ex Hx) in *. simpl in Hlen.
      rewrite IH; [|exact Hd'|exact Hset|rewrite Hrem; lia].
      cbn [obind]. now rewrite Hrem.
    + destruct d as [|d].
      * apply nth_error_None in Ex.
        rewrite ring_index_0 in *.
        replace (c =? length (statsBuckets s imax)) with true
          by (symmetry; apply Nat.eqb_eq; lia).
        rewrite Nat.eqb_refl. simpl.
        rewrite skipn_all2 by lia. reflexivity.
      * destruct Hfresh as [x' [Ex' _]]; [discriminate|]. congruence.
Qed.

End Traversal.

Section ViewWindow.

Context {T : Type}.
Variable TIMEOUT : nat.
Hypothesis TIMEOUT_ok : valid_TIMEOUT TIMEOUT.

Lemma size_flat_map (s : Stats T) :
  size TIMEOUT s = length (flat_map (statsBuckets s) (seq 0 TIMEOUT)).
Proof.
  unfold size. generalize TIMEOUT as n.
  induction n as [|n IH]; [reflexivity|].
  rewrite seq_S, fold_left_app, flat_map_app, length_app. simpl.
  now rewrite IH, app_nil_r.
Qed.

(** The traversal meets every bucket once. *)
Lemma ring_permutation (imax : nat) :
  imax < TIMEOUT ->
  Permutation (map (ring_index TIMEOUT imax) (seq 0 TIMEOUT))
              (seq 0 TIMEOUT).
Proof.
  intros Hm. apply NoDup_Permutation_bis.
  - apply NoDup_map_NoDup_ForallPairs; [|apply seq_NoDup].
    intros d d' Hd Hd' E. apply in_seq in Hd, Hd'.
    apply (@ring_index_inj TIMEOUT imax); try assumption; lia.
  - rewrite length_map. lia.
  - intros i Hi. apply in_map_iff in Hi. destruct Hi as [d [<- Hd]].
    apply in_seq in Hd. apply in_seq. split; [lia|]. simpl.
    apply ring_index_lt; lia.
Qed.

Lemma chunk_length (s : Stats T) (imax : nat) (tmin : Z) (i : nat) :
  length (chunk s imax tmin i) <= length (statsBuckets s i).
Proof.
  unfold chunk. destruct (i =? imax); [lia|apply take_while_length].
Qed.

Lemma chunk_incl (s : Stats T) (imax : nat) (tmin : Z) (i : nat)
      (x : StatsPair T) :
  In x (chunk s imax tmin i) -> In x (statsBuckets s i).
Proof.
  unfold chunk. destruct (i =? imax); [tauto|].
  intros Hx. now apply take_while_incl in Hx.
Qed.

Lemma window_from_length (s : Stats T) (imax : nat) (tmin : Z) (d : nat) :
  length (window_from TIMEOUT s imax tmin d)
  <= length (flat_map (statsBuckets s)
                      (map (ring_index TIMEOUT imax) (seq 0 (S d)))).
Proof.
  induction d as [|d IH].
  - simpl. rewrite ring_index_0, app_nil_r. apply chunk_length.
  - rewrite seq_S, map_app, flat_map_app, length_app.
    change (window_from TIMEOUT s imax tmin (S d))
      with (chunk s imax tmin (ring_index TIMEOUT imax (S d))
            ++ window_from TIMEOUT s imax tmin d).
    rewrite length_app. cbn [flat_map map Nat.add]. rewrite app_nil_r.
    pose proof (chunk_length s imax tmin (ring_index TIMEOUT imax (S d))).
    lia.
Qed.

Lemma window_length (s : Stats T) :
  length (window TIMEOUT s) <= size TIMEOUT s.
Proof.
  destruct TIMEOUT_ok as [Hpos _].
  unfold window. rewrite size_flat_map.
  rewrite <- (Permutation_length
                (Permutation_flat_map (statsBuckets s)
                   (ring_permutation (index_max_lt TIMEOUT_ok s)))).
  assert (E : seq 0 TIMEOUT = seq 0 (S (TIMEOUT - 1))) by (f_equal; lia).
  rewrite E. apply window_from_length.
Qed.

(** Iterating from [begin()] to [end()] terminates and yields the
    window. *)
Theorem view_window (s : Stats T) :
  view TIMEOUT s = Some (window TIMEOUT s).
Proof.
  destruct TIMEOUT_ok as [Hpos _].
  pose proof (index_max_lt TIMEOUT_ok s) as Hm.
  pose proof (window_length s) as Hlen.
  unfold view, begin_, end_, it_begin, it_end, make_iterator, window in *.
  destruct (ctor_scan TIMEOUT s) as [max imax]. simpl in *.
  rewrite ring_index_start by assumption.
  set (tmin := wrap64 (max - Z.of_nat TIMEOUT)) in *.
  destruct (@seek_settles T TIMEOUT s imax tmin Hm TIMEOUT
                          (TIMEOUT - 1) 0)
    as [d' [c' [Hseek [Hd' [Hrem Hset]]]]]; [lia|lia|lia|].
  unfold iterator_at in Hseek at 1. simpl in Hseek.
  unfold sv_begin. rewrite Hseek. cbn [obind].
  rewrite remaining_start in Hrem by (assumption || lia).
  rewrite <- Hrem.
  apply iterate_settled; try assumption.
  rewrite Hrem. exact Hlen.
Qed.

Lemma window_from_incl (s : Stats T) (imax : nat) (tmin : Z) (d : nat)
      (x : StatsPair T) :
  In x (window_from TIMEOUT s imax tmin d) ->
  exists d', d' <= d
             /\ In x (chunk s imax tmin (ring_index TIMEOUT imax d')).
Proof.
  induction d as [|d IH]; simpl.
  - intros Hx. exists 0. rewrite ring_index_0. split; [lia|exact Hx].
  - intros Hx. apply in_app_or in Hx. destruct Hx as [Hx|Hx].
    + exists (S d). split; [lia|exact Hx].
    + destruct (IH Hx) as [d' [Hd' Hin]]. exists d'. split; [lia|exact Hin].
Qed.

Lemma window_from_max (s : Stats T) (imax : nat) (tmin : Z) (d : nat)
      (x : StatsPair T) :
  In x (statsBuckets s imax) -> In x (window_from TIMEOUT s imax tmin d).
Proof.
  intros Hx. induction d as [|d IH]; simpl.
  - unfold chunk. now rewrite Nat.eqb_refl.
  - apply in_or_app. now right.
Qed.

Lemma window_stored (s : Stats T) (x : StatsPair T) :
  In x (window TIMEOUT s) -> stored s x.
Proof.
  intros Hx. apply window_from_incl in Hx. destruct Hx as [d [_ Hx]].
  apply chunk_incl in Hx. eexists. exact Hx.
Qed.

End ViewWindow.

(** ** Arithmetic of the ring *)

Lemma wrap64_sub_small (m w : Z) :
  is_timestamp m -> (0 < w < 2 ^ 64)%Z -> (m < w)%Z ->
  wrap64 (m - w) = (m - w + 2 ^ 64)%Z.
Proof.
  unfold is_timestamp, wrap64. intros Hm Hw Hlt.
  rewrite <- (Z.mod_add (m - w) 1 (2 ^ 64)) by lia.
  apply Z.mod_small. lia.
Qed.

Lemma wrap64_sub_large (m w : Z) :
  is_timestamp m -> (0 < w)%Z -> (w <= m)%Z ->
  wrap64 (m - w) = (m - w)%Z.
Proof.
  unfold is_timestamp, wrap64. intros Hm Hw Hle.
  apply Z.mod_small. lia.
Qed.

(** Two timestamps at most [w] apart whose buckets are [d] steps apart
    are [d] seconds apart. *)
Lemma congruent_in_window (w t m d : Z) :
  (0 < d < w)%Z -> (m - w <= t <= m)%Z ->
  (t mod w = m mod w - d \/ t mod w = m mod w + w - d)%Z ->
  t = (m - d)%Z.
Proof.
  intros Hd Ht Hc.
  pose proof (Z.div_mod t w ltac:(lia)) as Et.
  pose proof (Z.div_mod m w ltac:(lia)) as Em.
  set (qt := (t / w)%Z) in *. set (qm := (m / w)%Z) in *.
  destruct Hc as [Hc|Hc]; rewrite Hc in Et.
  - assert (qt = qm) by nia. subst qt. lia.
  - assert (qt = qm - 1)%Z by nia. nia.
Qed.

Section ListFacts.

Context {A : Type}.

Lemma filter_all (f : A -> bool) (l : list A) :
  (forall x, In x l -> f x = true) -> filter f l = l.
Proof.
  induction l as [|y l IH]; simpl; intros Hall; [reflexivity|].
  rewrite Hall by auto. f_equal. apply IH. auto.
Qed.

Lemma filter_none (f : A -> bool) (l : list A) :
  (forall x, In x l -> f x = false) -> filter f l = [].
Proof.
  induction l as [|y l IH]; simpl; intros Hall; [reflexivity|].
  rewrite Hall by auto. apply IH. auto.
Qed.

Lemma StronglySorted_uniform (R : A -> A -> Prop) (l : list A) :
  (forall x y, In x l -> In y l -> R x y) -> StronglySorted R l.
Proof.
  induction l as [|a l IH]; intros HR; constructor.
  - apply IH. intros x y Hx Hy. apply HR; now right.
  - apply Forall_forall. intros y Hy. apply HR; [now left|now right].
Qed.

Lemma StronglySorted_app (R : A -> A -> Prop) (l1 l2 : list A) :
  StronglySorted R l1 -> StronglySorted R l2 ->
  (forall x y, In x l1 -> In y l2 -> R x y) ->
  StronglySorted R (l1 ++ l2).
Proof.
  intros H1 H2 H12. induction H1 as [|a l1 Hs IH Ha]; simpl; [exact H2|].
  constructor.
  - apply IH. intros x y Hx Hy. apply H12; [now right|exact Hy].
  - apply Forall_app. split; [exact Ha|].
    apply Forall_forall. intros y Hy. apply H12; [now left|exact Hy].
Qed.

End ListFacts.

(** ** The window of a well-formed container *)

Section WindowFacts.

Context {T : Type}.
Variable TIMEOUT : nat.
Hypothesis TIMEOUT_ok : valid_TIMEOUT TIMEOUT.

Variable s : Stats T.
Hypothesis s_wf : wf TIMEOUT s.

Let max : timestamp_type := fst (ctor_scan TIMEOUT s).
Let imax : nat := snd (ctor_scan TIMEOUT s).
Let tmin : timestamp_type := wrap64 (max - Z.of_nat TIMEOUT).

(** The samples taken [d] buckets before [index_max] are [d] seconds
    older than [max]. *)
Lemma chunk_timestamp (d : nat) (x : StatsPair T) :
  d < TIMEOUT ->
  In x (chunk s imax tmin (ring_index TIMEOUT imax d)) ->
  fst x = (max - Z.of_nat d)%Z.
Proof.
  intros Hd Hx. destruct TIMEOUT_ok as [Hpos Hint].
  pose proof (index_max_lt TIMEOUT_ok s) as Hm. fold imax in Hm.
  destruct d as [|d].
  - rewrite ring_index_0 in Hx. unfold chunk in Hx.
    rewrite Nat.eqb_refl in Hx.
    rewrite (scan_max_samples s_wf _ Hx). fold max. simpl. lia.
  - unfold chunk in Hx.
    destruct (Nat.eqb_spec (ring_index TIMEOUT imax (S d)) imax) as [E|_].
    { exfalso. revert E. apply ring_index_neq; lia. }
    apply take_while_incl in Hx. destruct Hx as [Hx Hfresh].
    assert (Hst : stored s x) by (eexists; exact Hx).
    pose proof (scan_max_ge s_wf Hst) as Hle. fold max in Hle.
    pose proof (scan_index_max s_wf Hst) as Him.
    fold max imax in Him.
    pose proof (scan_max_timestamp s_wf) as Hmax. fold max in Hmax.
    destruct s_wf as [_ Hb].
    destruct (Hb _ x Hx) as [Hts [Hidx _]].
    unfold fresh in Hfresh. apply negb_true_iff, Z.ltb_ge in Hfresh.
    pose proof (bucket_index_Z TIMEOUT_ok (fst x)) as Zx.
    pose proof (bucket_index_Z TIMEOUT_ok max) as Zm.
    rewrite Hidx in Zx. rewrite <- Him in Zm.
    assert (H64 : (2 ^ 31 < 2 ^ 64)%Z) by reflexivity.
    destruct (Z.lt_ge_cases max (Z.of_nat TIMEOUT)) as [Hlt|Hge].
    + exfalso. unfold tmin in Hfresh.
      rewrite wrap64_sub_small in Hfresh by (assumption || lia).
      lia.
    + unfold tmin in Hfresh.
      rewrite wrap64_sub_large in Hfresh by (assumption || lia).
      apply congruent_in_window with (w := Z.of_nat TIMEOUT); [lia|lia|].
      rewrite <- Zx, <- Zm. unfold ring_index.
      destruct (Nat.leb_spec (S d) imax); [left|right]; lia.
Qed.

(** A bucket is taken whole or not at all. *)
Lemma chunk_whole (i : nat) :
  chunk s imax tmin i = [] \/ chunk s imax tmin i = statsBuckets s i.
Proof.
  unfold chunk. destruct (i =? imax); [now right|].
  destruct s_wf as [_ Hb]. specialize (Hb i).
  destruct (statsBuckets s i) as [|first rest] eqn:Eb; [now left|].
  destruct (fresh tmin first) eqn:Hf.
  - right. apply take_while_all. intros x Hx.
    destruct (Hb first (or_introl eq_refl)) as [_ [_ Hall]].
    unfold fresh in *. now rewrite (Hall x Hx).
  - left. simpl. now rewrite Hf.
Qed.

Lemma window_from_bounds (d : nat) (x : StatsPair T) :
  d < TIMEOUT ->
  In x (window_from TIMEOUT s imax tmin d) ->
  (max - Z.of_nat d <= fst x <= max)%Z.
Proof.
  intros Hd Hx. apply window_from_incl in Hx.
  destruct Hx as [d' [Hd' Hx]].
  rewrite (@chunk_timestamp d' x) by (assumption || lia). lia.
Qed.

Lemma window_from_sorted (d : nat) :
  d < TIMEOUT -> StronglySorted (@ts_le T) (window_from TIMEOUT s imax tmin d).
Proof.
  induction d as [|d IH]; intros Hd.
  - apply StronglySorted_uniform. intros x y Hx Hy. unfold ts_le.
    apply window_from_bounds in Hx, Hy; try lia.
  - change (window_from TIMEOUT s imax tmin (S d))
      with (chunk s imax tmin (ring_index TIMEOUT imax (S d))
            ++ window_from TIMEOUT s imax tmin d).
    apply StronglySorted_app.
    + apply StronglySorted_uniform. intros x y Hx Hy. unfold ts_le.
      rewrite (@chunk_timestamp (S d) x), (@chunk_timestamp (S d) y)
        by assumption.
      lia.
    + apply IH. lia.
    + intros x y Hx Hy. unfold ts_le.
      rewrite (@chunk_timestamp (S d) x) by assumption.
      apply window_from_bounds in Hy; lia.
Qed.

(** The samples of one second in the window are one whole bucket, or
    none. *)
Lemma window_from_filter (t : timestamp_type) (d : nat) :
  d < TIMEOUT ->
  filter (same_ts t) (window_from TIMEOUT s imax tmin d) = []
  \/ exists i first rest,
      statsBuckets s i = first :: rest
      /\ fst first = t
      /\ filter (same_ts t) (window_from TIMEOUT s imax tmin d)
         = first :: rest.
Proof.
  assert (Hchunk : forall d', d' < TIMEOUT ->
            filter (same_ts t) (chunk s imax tmin (ring_index TIMEOUT imax d')) = []
            \/ exists i first rest,
                statsBuckets s i = first :: rest
                /\ fst first = t
                /\ filter (same_ts t)
                          (chunk s imax tmin (ring_index TIMEOUT imax d'))
                   = first :: rest).
  { intros d' Hd'.
    destruct (Z.eq_dec t (max - Z.of_nat d')) as [Et|Et].
    - rewrite filter_all.
      + destruct (chunk_whole (ring_index TIMEOUT imax d')) as [E|E];
          [now left|].
        destruct (chunk s imax tmin (ring_index TIMEOUT imax d'))
          as [|first rest] eqn:Ec; [now left|].
        right. exists (ring_index TIMEOUT imax d'), first, rest.
        split; [now symmetry|]. split; [|reflexivity].
        rewrite Et. apply chunk_timestamp; [assumption|].
        rewrite Ec. now left.
      + intros x Hx. unfold same_ts. apply Z.eqb_eq.
        rewrite Et. now apply chunk_timestamp.
    - left. apply filter_none. intros x Hx. unfold same_ts.
      apply Z.eqb_neq. rewrite (@chunk_timestamp d' x) by assumption.
      congruence. }
  induction d as [|d IH]; intros Hd.
  - simpl. specialize (Hchunk 0 Hd). now rewrite ring_index_0 in Hchunk.
  - change (window_from TIMEOUT s imax tmin (S d))
      with (chunk s imax tmin (ring_index TIMEOUT imax (S d))
            ++ window_from TIMEOUT s imax tmin d).
    rewrite filter_app.
    destruct (Z.eq_dec t (max - Z.of_nat (S d))) as [Et|Et].
    + rewrite (@filter_none _ _ (window_from TIMEOUT s imax tmin d)).
      * rewrite app_nil_r. now apply Hchunk.
      * intros x Hx. unfold same_ts. apply Z.eqb_neq.
        apply window_from_bounds in Hx; lia.
    + rewrite (@filter_none _ _ (chunk s imax tmin _)).
      * simpl. apply IH. lia.
      * intros x Hx. unfold same_ts. apply Z.eqb_neq.
        rewrite (@chunk_timestamp (S d) x) by assumption. congruence.
Qed.

(** Every stored sample no older than [W] seconds is in the window,
    once [max] has reached [W]. *)
Lemma window_complete (x : StatsPair T) :
  (Z.of_nat TIMEOUT <= max)%Z ->
  stored s x -> (max - Z.of_nat TIMEOUT < fst x)%Z ->
  In x (window_from TIMEOUT s imax tmin (TIMEOUT - 1)).
Proof.
  intros Hge [i Hx] Hlive. destruct TIMEOUT_ok as [Hpos Hint].
  pose proof (index_max_lt TIMEOUT_ok s) as Hm. fold imax in Hm.
  pose proof (scan_max_timestamp s_wf) as Hmax. fold max in Hmax.
  assert (Hi : i < TIMEOUT).
  { destruct (Nat.lt_ge_cases i TIMEOUT) as [Hlt|Hge']; [exact Hlt|].
    destruct s_wf as [Hlen _].
    rewrite statsBuckets_beyond in Hx by lia. destruct Hx. }
  destruct (ring_index_surj Hm Hi) as [d [Hd <-]].
  assert (Hin : In x (chunk s imax tmin (ring_index TIMEOUT imax d))).
  { unfold chunk. destruct (_ =? imax); [exact Hx|].
    rewrite take_while_all; [exact Hx|].
    intros y Hy. destruct s_wf as [_ Hb].
    destruct (Hb _ x Hx) as [_ [_ Hall]].
    unfold fresh, tmin. rewrite (Hall y Hy).
    rewrite wrap64_sub_large by (assumption || lia).
    apply negb_true_iff, Z.ltb_ge. lia. }
  assert (Hgen : forall n, d <= n ->
            In x (chunk s imax tmin (ring_index TIMEOUT imax d)) ->
            In x (window_from TIMEOUT s imax tmin n)).
  { induction n as [|n IH]; intros Hn Hc.
    - assert (d = 0) by lia. subst d. simpl.
      now rewrite ring_index_0 in Hc.
    - simpl. apply in_or_app.
      destruct (Nat.eq_dec d (S n)) as [->|Hne]; [now left|].
      right. apply IH; [lia|exact Hc]. }
  apply Hgen; [lia|exact Hin].
Qed.

End WindowFacts.

(** ** What a sequence of insertions leaves in the buckets *)

Section SurvivorFacts.

Context {T : Type}.
Variable TIMEOUT : nat.
Hypothesis TIMEOUT_ok : valid_TIMEOUT TIMEOUT.

Lemma flat_map_length_bump {B : Type} (g g' : nat -> list B) (i c : nat)
      (l : list nat) :
  (forall j, j <> i -> length (g' j) = length (g j)) ->
  length (g' i) = length (g i) + c ->
  length (flat_map g' l)
  = length (flat_map g l) + c * count_occ Nat.eq_dec l i.
Proof.
  intros Hother Hi. induction l as [|a l IH]; simpl; [lia|].
  rewrite !length_app, IH.
  destruct (Nat.eq_dec a i) as [->|Hne].
  - rewrite Hi, Nat.mul_succ_r. lia.
  - rewrite Hother by assumption. lia.
Qed.

Lemma count_occ_seq (n i : nat) :
  i < n -> count_occ Nat.eq_dec (seq 0 n) i = 1.
Proof.
  intros Hi. apply NoDup_count_occ'; [apply seq_NoDup|].
  apply in_seq. lia.
Qed.

(** The samples of a list, sorted into buckets, are all there. *)
Lemma partition_length (l : list (StatsPair T)) :
  length (flat_map (fun i => filter (in_bucket TIMEOUT i) l)
                   (seq 0 TIMEOUT))
  = length l.
Proof.
  induction l as [|y l IH].
  - simpl. induction (seq 0 TIMEOUT); simpl; auto.
  - rewrite (@flat_map_length_bump _
               (fun i => filter (in_bucket TIMEOUT i) l)
               (fun i => filter (in_bucket TIMEOUT i) (y :: l))
               (bucket_index TIMEOUT (fst y)) 1).
    + rewrite IH, count_occ_seq by apply (bucket_index_lt TIMEOUT_ok).
      simpl. lia.
    + intros j Hj. simpl. unfold in_bucket at 1.
      destruct (Nat.eqb_spec (bucket_index TIMEOUT (fst y)) j);
        [congruence|reflexivity].
    + simpl. unfold in_bucket at 1. rewrite Nat.eqb_refl. simpl. lia.
Qed.

Lemma survivors_incl (h : list (StatsPair T)) (z : StatsPair T) :
  In z (survivors TIMEOUT h) -> In z h.
Proof.
  induction h as [|w h IH]; simpl; [tauto|].
  destruct (survives TIMEOUT h w); simpl; intuition.
Qed.

Lemma survives_cons (x : StatsPair T) (later : list (StatsPair T))
      (y : StatsPair T) :
  survives TIMEOUT (x :: later) y
  = negb (evicts TIMEOUT x y) && survives TIMEOUT later y.
Proof. reflexivity. Qed.

(** After the calls [h] on [s], a bucket holds what [h] did not evict
    from it, followed by the survivors of [h] routed to it. *)
Lemma add_all_bucket (h : list (StatsPair T)) :
  forall (s : Stats T) (i : nat),
    wf TIMEOUT s ->
    Forall (fun sp => is_timestamp (fst sp)) h ->
    statsBuckets (fold_left (add TIMEOUT) h s) i
    = filter (survives TIMEOUT h) (statsBuckets s i)
      ++ filter (in_bucket TIMEOUT i) (survivors TIMEOUT h).
Proof.
  induction h as [|x h IH]; intros s i Hwf Hh.
  - simpl. rewrite app_nil_r. symmetry. now apply filter_all.
  - inversion Hh as [|? ? Hx Hh']; subst.
    cbn [fold_left]. rewrite IH by (try apply wf_add; assumption).
    destruct Hwf as [Hlen Hb].
    destruct (Nat.eq_dec i (bucket_index TIMEOUT (fst x))) as [->|Hne].
    + rewrite add_bucket_same by assumption.
      assert (Hold :
                filter (survives TIMEOUT h)
                       match statsBuckets s (bucket_index TIMEOUT (fst x)) with
                       | first :: rest =>
                         if (fst x =? fst first)%Z then first :: rest else []
                       | [] => []
                       end
                = filter (survives TIMEOUT (x :: h))
                         (statsBuckets s (bucket_index TIMEOUT (fst x)))).
      { specialize (Hb (bucket_index TIMEOUT (fst x))).
        destruct (statsBuckets s (bucket_index TIMEOUT (fst x)))
          as [|first rest]; [reflexivity|].
        assert (Hsame : forall y, In y (first :: rest) ->
                                  fst y = fst first
                                  /\ bucket_index TIMEOUT (fst y)
                                     = bucket_index TIMEOUT (fst x)).
        { intros y Hy. destruct (Hb y Hy) as [_ [Hidx Hall]].
          split; [|exact Hidx]. symmetry. apply Hall. now left. }
        destruct (Z.eqb_spec (fst x) (fst first)) as [Heq|Hneq].
        - apply filter_ext_in. intros y Hy. rewrite survives_cons.
          destruct (Hsame y Hy) as [Hts _]. unfold evicts.
          replace (fst x =? fst y)%Z with true
            by (symmetry; apply Z.eqb_eq; congruence).
          now rewrite andb_false_r.
        - symmetry. apply filter_none. intros y Hy. rewrite survives_cons.
          destruct (Hsame y Hy) as [Hts Hidx]. unfold evicts.
          rewrite Hidx, Nat.eqb_refl.
          replace (fst x =? fst y)%Z with false
            by (symmetry; apply Z.eqb_neq; congruence).
          reflexivity. }
      rewrite filter_app, Hold, <- app_assoc. f_equal.
      cbn [survivors filter].
      destruct (survives TIMEOUT h x); [|reflexivity].
      cbn [filter]. unfold in_bucket at 2. now rewrite Nat.eqb_refl.
    + rewrite add_bucket_other by assumption. f_equal.
      * apply filter_ext_in. intros y Hy. rewrite survives_cons.
        destruct (Hb i y Hy) as [_ [Hidx _]]. unfold evicts.
        destruct (Nat.eqb_spec (bucket_index TIMEOUT (fst x))
                               (bucket_index TIMEOUT (fst y)));
          [congruence|reflexivity].
      * cbn [survivors].
        destruct (survives TIMEOUT h x); [|reflexivity].
        cbn [filter]. unfold in_bucket at 2.
        destruct (Nat.eqb_spec (bucket_index TIMEOUT (fst x)) i);
          [congruence|reflexivity].
Qed.

Lemma wf_add_all (h : list (StatsPair T)) :
  Forall (fun sp => is_timestamp (fst sp)) h ->
  wf TIMEOUT (add_all TIMEOUT h).
Proof.
  unfold add_all. generalize (@wf_empty T TIMEOUT).
  generalize (@empty_stats T TIMEOUT).
  induction h as [|x h IH]; intros s Hwf Hh; [exact Hwf|].
  inversion Hh; subst. cbn [fold_left]. apply IH; [|assumption].
  now apply wf_add.
Qed.

Lemma add_all_survivors (h : list (StatsPair T)) (i : nat) :
  Forall (fun sp => is_timestamp (fst sp)) h ->
  statsBuckets (add_all TIMEOUT h) i
  = filter (in_bucket TIMEOUT i) (survivors TIMEOUT h).
Proof.
  intros Hh. unfold add_all.
  rewrite add_all_bucket by (try apply wf_empty; assumption).
  now rewrite empty_bucket.
Qed.

Lemma size_add_all (h : list (StatsPair T)) :
  Forall (fun sp => is_timestamp (fst sp)) h ->
  size TIMEOUT (add_all TIMEOUT h) = length (survivors TIMEOUT h).
Proof.
  intros Hh. rewrite size_flat_map.
  rewrite (flat_map_ext _ (fun i => filter (in_bucket TIMEOUT i)
                                           (survivors TIMEOUT h))).
  - apply partition_length.
  - intros i. now apply add_all_survivors.
Qed.

End SurvivorFacts.

(** ** Reachable states *)

Section ReachableFacts.

Context {T : Type}.
Variable TIMEOUT : nat.
Hypothesis TIMEOUT_ok : valid_TIMEOUT TIMEOUT.

Lemma t_max_le (l : list (StatsPair T)) (m : Z) :
  (0 <= m)%Z -> (forall x, In x l -> (fst x <= m)%Z) -> (t_max l <= m)%Z.
Proof.
  intros Hm. unfold t_max. induction l as [|y l IH]; simpl; intros Hall.
  - exact Hm.
  - apply Z.max_lub; [apply Hall; now left|].
    apply IH. intros x Hx. apply Hall. now right.
Qed.

Lemma t_max_ge (l : list (StatsPair T)) (x : StatsPair T) :
  In x l -> (fst x <= t_max l)%Z.
Proof.
  unfold t_max. induction l as [|y l IH]; simpl; [tauto|].
  intros [->|Hx]; [lia|]. specialize (IH Hx). lia.
Qed.

Lemma added_snoc (ops : list (op T)) (o : op T) :
  added (ops ++ [o])
  = added ops ++ match o with Add sp => [sp] | Clear => [] end.
Proof. unfold added. rewrite flat_map_app. simpl. now rewrite app_nil_r. Qed.

(** A bucket holds the last calls of [add] made with its timestamp, in
    call order. *)
Lemma bucket_history (ops : list (op T)) :
  Forall valid_op ops ->
  forall i first rest,
    statsBuckets (run TIMEOUT ops) i = first :: rest ->
    exists earlier,
      filter (same_ts (fst first)) (added ops) = earlier ++ first :: rest.
Proof.
  induction ops as [|o ops IH] using rev_ind; intros Hv i first rest Eb.
  - unfold run in Eb. simpl in Eb. rewrite empty_bucket in Eb.
    discriminate.
  - apply Forall_app in Hv. destruct Hv as [Hv Ho].
    specialize (IH Hv). pose proof (wf_run TIMEOUT_ok Hv) as [Hlen Hb].
    rewrite run_snoc in Eb. rewrite added_snoc, filter_app.
    destruct o as [sp|]; simpl in Eb.
    + destruct (Nat.eq_dec i (bucket_index TIMEOUT (fst sp))) as [->|Hne].
      * rewrite add_bucket_same in Eb by assumption.
        destruct (statsBuckets (run TIMEOUT ops)
                               (bucket_index TIMEOUT (fst sp)))
          as [|first0 rest0] eqn:Eold.
        -- simpl in Eb. inversion Eb; subst first rest.
           exists (filter (same_ts (fst sp)) (added ops)).
           simpl. unfold same_ts at 2. now rewrite Z.eqb_refl.
        -- destruct (Z.eqb_spec (fst sp) (fst first0)) as [Heq|Hneq].
           ++ simpl in Eb. inversion Eb; subst first rest.
              destruct (IH _ _ _ Eold) as [earlier He].
              exists earlier. rewrite He. simpl. unfold same_ts at 1.
              rewrite Heq, Z.eqb_refl, <- app_assoc. reflexivity.
           ++ simpl in Eb. inversion Eb; subst first rest.
              exists (filter (same_ts (fst sp)) (added ops)).
              simpl. unfold same_ts at 2. now rewrite Z.eqb_refl.
      * rewrite add_bucket_other in Eb by assumption.
        destruct (IH _ _ _ Eb) as [earlier He].
        exists earlier. rewrite He. simpl. unfold same_ts at 1.
        destruct (Z.eqb_spec (fst sp) (fst first)) as [Heq|_];
          [|now rewrite app_nil_r].
        exfalso. apply Hne.
        destruct (Hb i first) as [_ [Hidx _]]; [rewrite Eb; now left|].
        now rewrite Heq.
    + rewrite clear_bucket in Eb by assumption. discriminate.
Qed.

Section State.

Variable s : Stats T.
Hypothesis s_wf : wf TIMEOUT s.

Lemma stored_t_max :
  (t_max (concat s) <= fst (ctor_scan TIMEOUT s))%Z.
Proof.
  pose proof (scan_max_timestamp s_wf) as Hmax.
  apply t_max_le; [unfold is_timestamp in Hmax; lia|].
  intros x Hx. apply (scan_max_ge s_wf). now apply stored_concat.
Qed.

Lemma stored_t_max_eq (x : StatsPair T) :
  stored s x -> t_max (concat s) = fst (ctor_scan TIMEOUT s).
Proof.
  intros Hx. pose proof stored_t_max as Hle.
  destruct (scan_max_bucket s_wf Hx) as [first [rest [Eb Hf]]].
  assert (Hin : In first (concat s)).
  { apply stored_concat. eexists. rewrite Eb. now left. }
  apply t_max_ge in Hin. lia.
Qed.

Lemma window_bounds (x : StatsPair T) :
  In x (window TIMEOUT s) ->
  (fst (ctor_scan TIMEOUT s) - Z.of_nat TIMEOUT < fst x
   <= fst (ctor_scan TIMEOUT s))%Z.
Proof.
  intros Hx. destruct TIMEOUT_ok as [Hpos _].
  apply (window_from_bounds TIMEOUT_ok s_wf) in Hx; lia.
Qed.

Lemma window_live (x : StatsPair T) :
  In x (window TIMEOUT s) -> live TIMEOUT s x.
Proof.
  intros Hx. split; [eapply window_stored; exact Hx|].
  pose proof stored_t_max. pose proof (@window_bounds x Hx). lia.
Qed.

(** A non-empty container has a live sample, which the window
    holds. *)
Lemma newest_live (x : StatsPair T) :
  stored s x ->
  exists y, live TIMEOUT s y /\ In y (window TIMEOUT s).
Proof.
  intros Hx. destruct TIMEOUT_ok as [Hpos _].
  destruct (scan_max_bucket s_wf Hx) as [first [rest [Eb Hf]]].
  exists first.
  assert (Hin : In first (statsBuckets s (snd (ctor_scan TIMEOUT s))))
    by (rewrite Eb; now left).
  split.
  - split; [eexists; exact Hin|].
    pose proof stored_t_max. lia.
  - unfold window. now apply window_from_max.
Qed.

Lemma size_zero_iff : size TIMEOUT s = 0 <-> forall x, ~ stored s x.
Proof.
  destruct s_wf as [Hlen _]. rewrite size_concat by assumption.
  split.
  - intros H0 x Hx. apply stored_concat in Hx.
    destruct (concat s); [destruct Hx|discriminate].
  - intros Hnone. destruct (concat s) as [|y l] eqn:E; [reflexivity|].
    exfalso. apply (Hnone y). apply stored_concat. rewrite E. now left.
Qed.

Lemma no_stored_iff_no_live :
  (forall x, ~ stored s x) <-> (forall x, ~ live TIMEOUT s x).
Proof.
  split.
  - intros Hnone x [Hx _]. exact (Hnone x Hx).
  - intros Hnone x Hx. destruct (newest_live Hx) as [y [Hy _]].
    exact (Hnone y Hy).
Qed.

Lemma no_stored_iff_window_nil :
  (forall x, ~ stored s x) <-> window TIMEOUT s = [].
Proof.
  split.
  - intros Hnone. destruct (window TIMEOUT s) as [|y l] eqn:E;
      [reflexivity|].
    exfalso. apply (Hnone y). eapply window_stored.
    rewrite E. now left.
  - intros Hnil x Hx. destruct (newest_live Hx) as [y [_ Hy]].
    rewrite Hnil in Hy. destruct Hy.
Qed.

End State.

Lemma get_p_throw_iff `{ValueType T} (s : Stats T) (p : Z) :
  get_p TIMEOUT s p = Throw_out_of_range <-> size TIMEOUT s = 0.
Proof.
  unfold get_p. destruct (Nat.eqb_spec (size TIMEOUT s) 0) as [E|E].
  - tauto.
  - split; [|contradiction].
    destruct (view TIMEOUT s); [|discriminate].
    destruct (transform _ _ _); [|discriminate].
    destruct (nth_error _ _); discriminate.
Qed.

End ReachableFacts.

(** ** The traversal with iterators compared as addresses *)

Lemma sv_address_same_bucket (L : layout) (i c c' : nat) :
  sv_address L {| sv_bucket := i; sv_offset := c |}
  = sv_address L {| sv_bucket := i; sv_offset := c' |}
  <-> c = c'.
Proof.
  unfold sv_address. cbn [sv_bucket sv_offset]. split; [|now intros ->].
  intros E. pose proof (Pos2Z.is_pos (elem_size L)) as Hpos.
  assert (Z.pos (elem_size L) * Z.of_nat c
          = Z.pos (elem_size L) * Z.of_nat c')%Z by lia.
  apply Z.mul_reg_l in H; lia.
Qed.

Section RawTraversal.

Context {T : Type}.
Variable TIMEOUT : nat.
Hypothesis TIMEOUT_ok : valid_TIMEOUT TIMEOUT.

Variable L : layout.
Variable s : Stats T.
Variable imax : nat.
Variable tmin : timestamp_type.
Hypothesis imax_lt : imax < TIMEOUT.

Let last : statsBucketsIterator :=
  {| current := sv_end s imax;
     ts_min := tmin;
     index := imax;
     index_max := imax |}.

Lemma iterate_raw_unfold (fuel : nat) (first : statsBucketsIterator) :
  iterate_raw TIMEOUT L fuel s first last
  = if it_neq_raw L first last then
      match fuel with
      | O => None
      | S fuel' =>
        sp <- it_deref s first ;;
        first' <- it_incr TIMEOUT s first ;;
        rest <- iterate_raw TIMEOUT L fuel' s first' last ;;
        Some (sp :: rest)
      end
    else Some [].
Proof. destruct fuel; reflexivity. Qed.

Lemma it_neq_raw_at (d c : nat) :
  it_neq_raw L (iterator_at TIMEOUT imax tmin d c) last
  = negb (sv_address L {| sv_bucket := ring_index TIMEOUT imax d;
                          sv_offset := c |}
          =? sv_address L (sv_end s imax))%Z.
Proof. reflexivity. Qed.

(** The loop stops at the first position whose address is that of
    [end()]: it yields the beginning of what the position has left, and
    all of it when no sample it can stop on has that address. *)
Lemma iterate_raw_prefix (fuel : nat) :
  forall d c,
    d < TIMEOUT ->
    settled TIMEOUT s imax tmin d c ->
    length (remaining TIMEOUT s imax tmin d c) <= fuel ->
    exists l rest,
      iterate_raw TIMEOUT L fuel s (iterator_at TIMEOUT imax tmin d c) last
      = Some l
      /\ remaining TIMEOUT s imax tmin d c = l ++ rest
      /\ ((forall d' c' x,
              d' <> 0 -> d' < TIMEOUT ->
              nth_error (statsBuckets s (ring_index TIMEOUT imax d')) c'
              = Some x ->
              fresh tmin x = true ->
              sv_address L {| sv_bucket := ring_index TIMEOUT imax d';
                              sv_offset := c' |}
              <> sv_address L (sv_end s imax)) ->
          rest = []).
Proof.
  induction fuel as [|fuel IH]; intros d c Hd [Hc Hfresh] Hlen;
    rewrite iterate_raw_unfold, it_neq_raw_at;
    destruct (Z.eqb_spec
                (sv_address L {| sv_bucket := ring_index TIMEOUT imax d;
                                 sv_offset := c |})
                (sv_address L (sv_end s imax))) as [Eq|Neq]; cbn [negb].
  1, 3: exists [], (remaining TIMEOUT s imax tmin d c);
    (split; [reflexivity|]); (split; [reflexivity|]); intros Hsep;
    (destruct d as [|d];
     [ rewrite ring_index_0 in Eq; unfold sv_end in Eq;
       apply sv_address_same_bucket in Eq; subst c;
       cbn [remaining]; apply skipn_all
     | exfalso; destruct Hfresh as [x [Ex Hx]]; [discriminate|];
       exact (Hsep (S d) c x ltac:(discriminate) Hd Ex Hx Eq) ]).
  all: assert (Hx : exists x,
                 nth_error (statsBuckets s (ring_index TIMEOUT imax d)) c
                 = Some x
                 /\ (d <> 0 -> fresh tmin x = true)).
  1, 3: destruct d as [|d];
    [ rewrite ring_index_0 in *;
      assert (c <> length (statsBuckets s imax))
        by (intros ->; now apply Neq);
      destruct (nth_error (statsBuckets s imax) c) as [x|] eqn:Ex;
      [ exists x; split; [reflexivity|congruence]
      | apply nth_error_None in Ex; lia ]
    | destruct Hfresh as [x [Ex Hx]]; [discriminate|];
      exists x; split; [exact Ex|intros _; exact Hx] ].
  - destruct Hx as [x [Ex Hx]].
    rewrite (@remaining_step T TIMEOUT s imax tmin d c x Ex Hx) in Hlen.
    simpl in Hlen. lia.
  - destruct Hx as [x [Ex Hx]].
    assert (Hderef : it_deref s (iterator_at TIMEOUT imax tmin d c) = Some x)
      by exact Ex.
    rewrite Hderef. cbn [obind].
    assert (Hc' : S c <= length (statsBuckets s (ring_index TIMEOUT imax d))).
    { assert (c < length (statsBuckets s (ring_index TIMEOUT imax d)))
        by (apply nth_error_Some; congruence). lia. }
    destruct (@seek_settles T TIMEOUT s imax tmin imax_lt TIMEOUT d (S c))
      as [d' [c' [Hseek [Hd' [Hrem Hset]]]]]; [lia|lia|exact Hc'|].
    assert (Hincr : it_incr TIMEOUT s (iterator_at TIMEOUT imax tmin d c)
                    = Some (iterator_at TIMEOUT imax tmin d' c'))
      by exact Hseek.
    rewrite Hincr. cbn [obind].
    rewrite (@remaining_step T TIMEOUT s imax tmin d c x Ex Hx) in *.
    simpl in Hlen.
    destruct (IH d' c' Hd' Hset) as [l [rest [Hit [Happ Hfull]]]];
      [rewrite Hrem; lia|].
    rewrite Hit. cbn [obind]. exists (x :: l), rest.
    split; [reflexivity|]. split; [|exact Hfull].
    rewrite <- Hrem, Happ. reflexivity.
Qed.

End RawTraversal.

Section RawView.

Context {T : Type}.
Variable TIMEOUT : nat.
Hypothesis TIMEOUT_ok : valid_TIMEOUT TIMEOUT.

Lemma separated_spec (L : layout) (s : Stats T) :
  separated TIMEOUT L s = true ->
  forall d c x,
    d <> 0 -> d < TIMEOUT ->
    nth_error (statsBuckets s
                 (ring_index TIMEOUT (snd (ctor_scan TIMEOUT s)) d)) c
    = Some x ->
    fresh (wrap64 (fst (ctor_scan TIMEOUT s) - Z.of_nat TIMEOUT)) x = true ->
    sv_address L {| sv_bucket :=
                      ring_index TIMEOUT (snd (ctor_scan TIMEOUT s)) d;
                    sv_offset := c |}
    <> sv_address L (sv_end s (snd (ctor_scan TIMEOUT s))).
Proof.
  intros Hsep d c x Hd0 Hd Ex Hx.
  pose proof (index_max_lt TIMEOUT_ok s) as Hm.
  unfold separated in Hsep. rewrite forallb_forall in Hsep.
  specialize (Hsep (ring_index TIMEOUT (snd (ctor_scan TIMEOUT s)) d)).
  rewrite in_seq in Hsep.
  assert (Hi : ring_index TIMEOUT (snd (ctor_scan TIMEOUT s)) d < TIMEOUT)
    by (apply ring_index_lt; assumption).
  specialize (Hsep ltac:(lia)).
  destruct (Nat.eqb_spec
              (ring_index TIMEOUT (snd (ctor_scan TIMEOUT s)) d)
              (snd (ctor_scan TIMEOUT s))) as [E|_].
  { exfalso. revert E. apply ring_index_neq; assumption. }
  simpl in Hsep. rewrite forallb_forall in Hsep.
  specialize (Hsep c). rewrite in_seq in Hsep.
  assert (Hc : c < length (statsBuckets s
                             (ring_index TIMEOUT
                                (snd (ctor_scan TIMEOUT s)) d)))
    by (apply nth_error_Some; congruence).
  specialize (Hsep ltac:(lia)). rewrite Ex, Hx in Hsep. simpl in Hsep.
  apply negb_true_iff, Z.eqb_neq in Hsep. exact Hsep.
Qed.

(** Under every layout the loop from [begin()] to [end()] terminates and
    yields the beginning of the window; it yields the whole window when
    the layout is separated. *)
Lemma view_raw_prefix (L : layout) (s : Stats T) :
  exists l rest,
    view_raw TIMEOUT L s = Some l
    /\ window TIMEOUT s = l ++ rest
    /\ (separated TIMEOUT L s = true -> rest = []).
Proof.
  destruct TIMEOUT_ok as [Hpos _].
  pose proof (index_max_lt TIMEOUT_ok s) as Hm.
  pose proof (window_length TIMEOUT_ok s) as Hlen.
  pose proof (separated_spec L s) as Hsep.
  unfold view_raw, begin_, end_, it_begin, it_end, make_iterator, window in *.
  destruct (ctor_scan TIMEOUT s) as [max imax]. simpl in *.
  rewrite ring_index_start by assumption.
  set (tmin := wrap64 (max - Z.of_nat TIMEOUT)) in *.
  destruct (@seek_settles T TIMEOUT s imax tmin Hm TIMEOUT
                          (TIMEOUT - 1) 0)
    as [d' [c' [Hseek [Hd' [Hrem Hset]]]]]; [lia|lia|lia|].
  unfold iterator_at in Hseek at 1. simpl in Hseek.
  unfold sv_begin. rewrite Hseek. cbn [obind].
  rewrite remaining_start in Hrem by (assumption || lia).
  destruct (@iterate_raw_prefix T TIMEOUT L s imax tmin Hm (size TIMEOUT s)
                                d' c' Hd' Hset)
    as [l [rest [Hit [Happ Hfull]]]]; [rewrite Hrem; exact Hlen|].
  exists l, rest. split; [exact Hit|]. split; [now rewrite <- Hrem|].
  intros Hs. apply Hfull. now apply Hsep.
Qed.

Lemma view_raw_separated (L : layout) (s : Stats T) :
  separated TIMEOUT L s = true ->
  view_raw TIMEOUT L s = Some (window TIMEOUT s).
Proof.
  intros Hs. destruct (view_raw_prefix L s) as [l [rest [Hv [Hw Hfull]]]].
  rewrite Hv, Hw, (Hfull Hs), app_nil_r. reflexivity.
Qed.

End RawView.

(** ** The percentile *)

Section PercentileFacts.

Context {T : Type} `{ValueType T}.
Variable TIMEOUT : nat.
Hypothesis TIMEOUT_ok : valid_TIMEOUT TIMEOUT.

Lemma insert_sorted_length (x : T) (l : list T) :
  length (insert_sorted x l) = S (length l).
Proof.
  induction l as [|y l IH]; simpl; [reflexivity|].
  destruct (less y x); simpl; [now rewrite IH|reflexivity].
Qed.

Lemma sorted_length (l : list T) : length (sorted l) = length l.
Proof.
  induction l as [|x l IH]; simpl; [reflexivity|].
  now rewrite insert_sorted_length, IH.
Qed.

Lemma insert_sorted_in (x y : T) (l : list T) :
  In y (insert_sorted x l) -> y = x \/ In y l.
Proof.
  induction l as [|z l IH]; simpl.
  - intros [<-|[]]. now left.
  - destruct (less z x); simpl.
    + intros [<-|Hy]; [right; now left|].
      destruct (IH Hy); [now left|right; now right].
    + intros [<-|[<-|Hy]]; auto.
Qed.

Lemma sorted_in (y : T) (l : list T) : In y (sorted l) -> In y l.
Proof.
  induction l as [|x l IH]; simpl; [tauto|].
  intros Hy. apply insert_sorted_in in Hy. destruct Hy as [->|Hy]; auto.
Qed.

(** [std::transform] into a vector that is long enough. *)
Lemma transform_fits {A : Type} (f : A -> T) (src : list A) (v : list T) :
  length src <= length v ->
  exists v', transform f src v = Some v'
             /\ length v' = length v
             /\ forall y, In y v' -> In y (map f src) \/ In y v.
Proof.
  revert v. induction src as [|x src IH]; intros v Hlen; simpl.
  - exists v. auto.
  - destruct v as [|z v]; simpl in Hlen; [lia|].
    destruct (IH v) as [v' [E [Hl Hin]]]; [lia|].
    rewrite E. simpl. exists (f x :: v'). split; [reflexivity|].
    split; [simpl; now rewrite Hl|].
    intros y [<-|Hy]; [left; now left|].
    destruct (Hin y Hy); [left; now right|right; now right].
Qed.

(** What [get_p] returns is a value the traversal yields, or the
    value-initialised filler of the scratch vector. *)
Lemma get_p_value (s : Stats T) (p : Z) (x : T) :
  get_p TIMEOUT s p = Value x ->
  In x (map snd (window TIMEOUT s)) \/ x = value_init.
Proof.
  unfold get_p. destruct (size TIMEOUT s =? 0); [discriminate|].
  rewrite view_window by assumption.
  destruct (@transform_fits _ snd (window TIMEOUT s)
                            (repeat value_init (size TIMEOUT s)))
    as [v [E [_ Hin]]].
  { rewrite repeat_length. now apply window_length. }
  rewrite E.
  destruct (nth_error (sorted v) (percentile_index (size TIMEOUT s) p))
    as [y|] eqn:Ey; [|discriminate].
  intros Hv. inversion Hv; subst y.
  apply nth_error_In, sorted_in, Hin in Ey.
  destruct Ey as [Hy|Hy]; [now left|right].
  now apply repeat_spec in Hy.
Qed.

(** The rank computed for [p = 100] is the number of samples: one past
    the last slot. *)
Lemma get_p_100 (s : Stats T) :
  size TIMEOUT s <> 0 ->
  (Z.of_nat (size TIMEOUT s) * 100 + 99 < 2 ^ 64)%Z ->
  get_p TIMEOUT s 100
  = Out_of_bounds (size TIMEOUT s) (size TIMEOUT s).
Proof.
  intros Hne Hsmall. unfold get_p.
  destruct (Nat.eqb_spec (size TIMEOUT s) 0) as [E|_]; [contradiction|].
  rewrite view_window by assumption.
  destruct (@transform_fits _ snd (window TIMEOUT s)
                            (repeat value_init (size TIMEOUT s)))
    as [v [E [Hlen _]]].
  { rewrite repeat_length. now apply window_length. }
  rewrite E. rewrite repeat_length in Hlen.
  assert (Hidx : percentile_index (size TIMEOUT s) 100 = size TIMEOUT s).
  { unfold percentile_index, wrap64.
    rewrite Z.mod_small by lia.
    replace (Z.of_nat (size TIMEOUT s) * 100 + 99)%Z
      with (99 + Z.of_nat (size TIMEOUT s) * 100)%Z by lia.
    rewrite Z.div_add by lia.
    change (99 / 100)%Z with 0%Z. lia. }
  rewrite Hidx.
  destruct (nth_error (sorted v) (size TIMEOUT s)) eqn:En;
    [|reflexivity].
  exfalso.
  assert (nth_error (sorted v) (size TIMEOUT s) <> None) by congruence.
  apply nth_error_Some in H0. rewrite sorted_length in H0. lia.
Qed.

End PercentileFacts.

(** ** The stale tail *)

Section StaleTail.

Context {T : Type}.
Variable TIMEOUT : nat.
Hypothesis TIMEOUT_ok : valid_TIMEOUT TIMEOUT.
Hypothesis TIMEOUT_ge_2 : 2 <= TIMEOUT.

Variable t : timestamp_type.
Variables a b : T.

Let W : Z := Z.of_nat TIMEOUT.
Let x : StatsPair T := (t, a).
Let y : StatsPair T := ((t + W - 1)%Z, b).

Hypothesis t_ok : is_timestamp t.
Hypothesis tb_ok : is_timestamp (t + W - 1).

Lemma neighbour_bucket :
  bucket_index TIMEOUT (t + W - 1) <> bucket_index TIMEOUT t.
Proof.
  intros E. apply (f_equal Z.of_nat) in E.
  rewrite !(bucket_index_Z TIMEOUT_ok) in E. fold W in E.
  assert (HW : (2 <= W)%Z) by (unfold W; lia).
  pose proof (Z.div_mod (t + W - 1) W ltac:(lia)) as E1.
  pose proof (Z.div_mod t W ltac:(lia)) as E2.
  rewrite E in E1.
  set (q1 := ((t + W - 1) / W)%Z) in *. set (q2 := (t / W)%Z) in *.
  assert (W * (q1 - q2) = W - 1)%Z by lia.
  assert (q1 - q2 = 0 \/ q1 - q2 < 0 \/ 0 < q1 - q2)%Z as [Hq|[Hq|Hq]]
    by lia; nia.
Qed.

Lemma two_samples_history :
  Forall (fun sp : StatsPair T => is_timestamp (fst sp)) [x; y].
Proof.
  apply Forall_cons; [exact t_ok|].
  apply Forall_cons; [exact tb_ok|apply Forall_nil].
Qed.

Lemma two_samples_survive : survivors TIMEOUT [x; y] = [x; y].
Proof.
  cbn [survivors survives forallb]. unfold evicts. cbn [fst x y].
  destruct (Nat.eqb_spec (bucket_index TIMEOUT (t + W - 1))
                         (bucket_index TIMEOUT t)) as [E|_];
    [now apply neighbour_bucket in E|reflexivity].
Qed.

Lemma two_samples_stored (z : StatsPair T) :
  stored (add_all TIMEOUT [x; y]) z <-> z = x \/ z = y.
Proof.
  unfold stored. split.
  - intros [i Hz].
    rewrite (add_all_survivors TIMEOUT_ok _ two_samples_history) in Hz.
    rewrite two_samples_survive in Hz. apply filter_In in Hz.
    destruct Hz as [[<-|[<-|[]]] _]; auto.
  - intros [-> | ->].
    + exists (bucket_index TIMEOUT (fst x)).
      rewrite (add_all_survivors TIMEOUT_ok _ two_samples_history).
      rewrite two_samples_survive. apply filter_In.
      split; [now left|]. unfold in_bucket. apply Nat.eqb_refl.
    + exists (bucket_index TIMEOUT (fst y)).
      rewrite (add_all_survivors TIMEOUT_ok _ two_samples_history).
      rewrite two_samples_survive. apply filter_In.
      split; [right; now left|]. unfold in_bucket. apply Nat.eqb_refl.
Qed.

Lemma two_samples_max :
  fst (ctor_scan TIMEOUT (add_all TIMEOUT [x; y])) = (t + W - 1)%Z.
Proof.
  pose proof (wf_add_all TIMEOUT_ok two_samples_history) as Hwf.
  assert (Hy : stored (add_all TIMEOUT [x; y]) y)
    by (apply two_samples_stored; now right).
  pose proof (scan_max_ge Hwf Hy) as Hge.
  destruct (scan_max_bucket Hwf Hy) as [first [rest [Eb Hf]]].
  assert (Hfirst : stored (add_all TIMEOUT [x; y]) first)
    by (eexists; rewrite Eb; now left).
  apply two_samples_stored in Hfirst.
  assert (HW : (2 <= W)%Z) by (unfold W; lia).
  rewrite <- Hf in *. destruct Hfirst as [-> | ->]; cbn [fst x y] in *; lia.
Qed.

(** From [t = 1] on, the sample added at [t] is still yielded after a
    sample was added at [t + W - 1]. *)
Lemma stale_tail_live :
  (1 <= t)%Z ->
  view TIMEOUT (add_all TIMEOUT [x; y]) = Some [x; y].
Proof.
  intros Ht. rewrite view_window by assumption. f_equal.
  pose proof (wf_add_all TIMEOUT_ok two_samples_history) as Hwf.
  assert (HW : (2 <= W)%Z) by (unfold W; lia).
  pose proof two_samples_max as Hmax.
  assert (Hin : forall z, z = x \/ z = y ->
                          In z (window TIMEOUT (add_all TIMEOUT [x; y]))).
  { intros z Hz. unfold window.
    apply (window_complete TIMEOUT_ok Hwf).
    - rewrite Hmax. fold W. lia.
    - now apply two_samples_stored.
    - rewrite Hmax. fold W.
      destruct Hz as [-> | ->]; cbn [fst x y]; lia. }
  pose proof (window_length TIMEOUT_ok (add_all TIMEOUT [x; y])) as Hlen.
  rewrite (size_add_all TIMEOUT_ok two_samples_history) in Hlen.
  rewrite two_samples_survive in Hlen. simpl in Hlen.
  assert (Hsorted : StronglySorted (@ts_le T)
                      (window TIMEOUT (add_all TIMEOUT [x; y]))).
  { destruct TIMEOUT_ok as [Hpos _].
    apply (window_from_sorted TIMEOUT_ok Hwf). lia. }
  pose proof (Hin x (or_introl eq_refl)) as Hx.
  pose proof (Hin y (or_intror eq_refl)) as Hy.
  assert (Hxy : (fst x < fst y)%Z) by (cbn [fst x y]; lia).
  destruct (window TIMEOUT (add_all TIMEOUT [x; y])) as [|p [|q [|r l]]];
    simpl in Hlen; try lia.
  - destruct Hx.
  - destruct Hx as [<-|[]]. destruct Hy as [Hy|[]].
    rewrite <- Hy in Hxy. lia.
  - inversion Hsorted as [|? ? _ Hpq]; subst.
    inversion Hpq as [|? ? Hle _]; subst. unfold ts_le in Hle.
    destruct Hx as [<-|[<-|[]]]; destruct Hy as [<-|[<-|[]]];
      try reflexivity; lia.
Qed.

(** For every [t], once a sample is added at [t + W] the one added at
    [t] is gone from its bucket, and is not yielded. *)
Lemma stale_tail_evicted (c : T) (l : list (StatsPair T)) :
  is_timestamp (t + W) ->
  view TIMEOUT (add_all TIMEOUT [x; y; ((t + W)%Z, c)]) = Some l ->
  ~ In x l.
Proof.
  intros Htc Hview Hx. rewrite view_window in Hview by assumption.
  inversion Hview; subst l. apply window_stored in Hx.
  destruct Hx as [i Hx].
  assert (Hh : Forall (fun sp : StatsPair T => is_timestamp (fst sp))
                      [x; y; ((t + W)%Z, c)])
    by (apply Forall_cons; [exact t_ok|];
        apply Forall_cons; [exact tb_ok|];
        apply Forall_cons; [exact Htc|apply Forall_nil]).
  rewrite (add_all_survivors TIMEOUT_ok _ Hh) in Hx.
  apply filter_In in Hx. destruct Hx as [Hx _].
  assert (HW : (2 <= W)%Z) by (unfold W; lia).
  assert (Hev : survives TIMEOUT [y; ((t + W)%Z, c)] x = false).
  { cbn [survives forallb]. unfold evicts at 2. cbn [fst x].
    replace (bucket_index TIMEOUT (t + W)) with (bucket_index TIMEOUT t).
    - rewrite Nat.eqb_refl.
      destruct (Z.eqb_spec (t + W) t); [lia|]. simpl.
      now rewrite andb_false_r.
    - unfold bucket_index, W. f_equal.
      rewrite <- (Z.mul_1_l (Z.of_nat TIMEOUT)) at 2.
      symmetry. apply Z.mod_add. lia. }
  change (survivors TIMEOUT [x; y; ((t + W)%Z, c)])
    with (if survives TIMEOUT [y; ((t + W)%Z, c)] x
          then x :: survivors TIMEOUT [y; ((t + W)%Z, c)]
          else survivors TIMEOUT [y; ((t + W)%Z, c)]) in Hx.
  rewrite Hev in Hx. apply survivors_incl in Hx.
  destruct Hx as [Hx|[Hx|[]]]; apply (f_equal fst) in Hx;
    cbn [fst x y] in Hx; lia.
Qed.

End StaleTail.

(** * The claims *)

Lemma valid_TIMEOUT_60 : valid_TIMEOUT 60.
Proof. split; [lia|reflexivity]. Qed.

(** C1 (the code departs from the claim). The rank is
    [(n * q + 99) / 100], but [get_p] does not clamp it: on the three
    samples (1000,10), (1000,20), (1030,30) the call [get_p70()] computes
    the rank 3 and reads slot 3 of a vector of 3 values, and on a hundred
    samples the call [get_p(100)] reads slot 100 of a vector of 100
    values. *)
Theorem get_p_rank_past_the_end :
  view 60 scenario_three = Some [(1000, 10); (1000, 20); (1030, 30)]%Z
  /\ percentile_index 3 70 = 3
  /\ get_p70 60 scenario_three = Out_of_bounds 3 3
  /\ size 60 scenario_hundred = 100
  /\ percentile_index 100 100 = 100
  /\ get_p 60 scenario_hundred 100 = Out_of_bounds 100 100.
Proof. repeat split; vm_compute; reflexivity. Qed.

(** C2 (the code departs from the claim). [get_p] sizes the scratch
    vector with [size()], which counts the sample (1000,5) that the
    traversal skips; the slot the traversal does not fill keeps the
    value-initialised 0, and [get_p(0)] returns it although it is no live
    value. *)
Theorem get_p_returns_filler :
  size 60 scenario_lingering = 2
  /\ view 60 scenario_lingering = Some [(1061, 7)]%Z
  /\ get_p 60 scenario_lingering 0 = Value 0%Z
  /\ ~ In 0%Z (map snd [(1061, 7)]%Z).
Proof.
  repeat split; try (vm_compute; reflexivity).
  simpl. intros [H|[]]. discriminate.
Qed.

(** C3 (the code departs from the claim). With W = 60 and t = 0, after
    [add(0, a)] and [add(59, b)] the traversal yields [b] only:
    [ts_min = 59 - 60] wraps around to [2^64 - 1] and the sample [a],
    one second inside the window, is skipped. *)
Theorem epoch_sample_skipped (T : Type) (a b : T) :
  statsBuckets (scenario_epoch a b) 0 = [(0%Z, a)]
  /\ ts_min (make_iterator 60 (scenario_epoch a b)) = (2 ^ 64 - 1)%Z
  /\ view 60 (scenario_epoch a b) = Some [(59%Z, b)].
Proof. repeat split; vm_compute; reflexivity. Qed.

(** C9. With W = 60, after adding the values 1..10 at timestamp 1000:
    [size()] is 10, the traversal yields the values in the order 1..10,
    the rank of the median is (10 * 50 + 99) / 100 = 5 and [get_p(50)]
    returns 6, the value of that rank counted from 0. *)
Theorem same_second_median :
  size 60 scenario_same_second = 10
  /\ view 60 scenario_same_second
     = Some (map (fun v => (1000, v)%Z) [1; 2; 3; 4; 5; 6; 7; 8; 9; 10]%Z)
  /\ percentile_index 10 50 = 5
  /\ get_p 60 scenario_same_second 50 = Value 6%Z.
Proof. repeat split; vm_compute; reflexivity. Qed.

(** C10. [add(t, v)] leaves every bucket other than [t mod W] as it
    was. *)
Theorem add_frame (T : Type) (TIMEOUT : nat) (s : Stats T)
        (t : timestamp_type) (v : T) (i : nat) :
  i <> bucket_index TIMEOUT t ->
  statsBuckets (add_ts TIMEOUT s t v) i = statsBuckets s i.
Proof.
  intros Hi. unfold add_ts. now apply add_bucket_other.
Qed.

Lemma add_frame_witness :
  41 <> bucket_index 60 1000%Z
  /\ statsBuckets (add_ts 60 scenario_lingering 1000%Z 9%Z) 41
     = statsBuckets scenario_lingering 41.
Proof.
  assert (H : 41 <> bucket_index 60 1000%Z) by (vm_compute; lia).
  split; [exact H|].
  exact (@add_frame Z 60 scenario_lingering 1000%Z 9%Z 41 H).
Defined.

(** C6. [add(t, v)] writes bucket [t mod W] only: an empty bucket, or
    one whose stored timestamp differs from [t], ends up holding [(t, v)]
    alone (the former contents are discarded); a bucket already holding
    timestamp [t] gets [(t, v)] appended at its tail; no other bucket
    changes, so nothing else is ever evicted. In particular after
    [add(t, a)] and [add(t + W, b)] the bucket holds [b] only. *)
Theorem add_routes_and_evicts (T : Type) (TIMEOUT : nat) (s : Stats T)
        (t : timestamp_type) (v : T) :
  valid_TIMEOUT TIMEOUT -> length s = TIMEOUT -> is_timestamp t ->
  let i := bucket_index TIMEOUT t in
  let s' := add_ts TIMEOUT s t v in
  Z.of_nat i = (t mod Z.of_nat TIMEOUT)%Z
  /\ (statsBuckets s i = [] -> statsBuckets s' i = [(t, v)])
  /\ (forall first rest,
         statsBuckets s i = first :: rest -> fst first <> t ->
         statsBuckets s' i = [(t, v)])
  /\ (forall first rest,
         statsBuckets s i = first :: rest -> fst first = t ->
         statsBuckets s' i = (first :: rest) ++ [(t, v)])
  /\ (forall j, j <> i -> statsBuckets s' j = statsBuckets s j)
  /\ (forall a b,
         is_timestamp (t + Z.of_nat TIMEOUT) ->
         statsBuckets
           (add_ts TIMEOUT (add_ts TIMEOUT s t a) (t + Z.of_nat TIMEOUT)%Z b) i
         = [((t + Z.of_nat TIMEOUT)%Z, b)]).
Proof.
  intros HW Hlen Ht i s'. subst i s'. unfold add_ts.
  split; [apply (bucket_index_Z HW)|].
  split; [|split; [|split; [|split]]].
  - intros Eb. rewrite add_bucket_same by assumption.
    cbn [fst]. now rewrite Eb.
  - intros first rest Eb Hne. rewrite add_bucket_same by assumption.
    cbn [fst]. rewrite Eb.
    destruct (Z.eqb_spec t (fst first)); [congruence|reflexivity].
  - intros first rest Eb Heq. rewrite add_bucket_same by assumption.
    cbn [fst]. rewrite Eb.
    destruct (Z.eqb_spec t (fst first)); [reflexivity|congruence].
  - intros j Hj. now apply add_bucket_other.
  - intros a b _. pose proof HW as [Hpos Hint].
    assert (Hidx : bucket_index TIMEOUT (t + Z.of_nat TIMEOUT)%Z
                   = bucket_index TIMEOUT t).
    { unfold bucket_index. f_equal.
      rewrite <- (Z.mul_1_l (Z.of_nat TIMEOUT)) at 1.
      apply Z.mod_add. lia. }
    rewrite <- Hidx.
    change (bucket_index TIMEOUT (t + Z.of_nat TIMEOUT)%Z)
      with (bucket_index TIMEOUT (fst ((t + Z.of_nat TIMEOUT)%Z, b))).
    rewrite add_bucket_same by (try rewrite add_length; assumption).
    cbn [fst]. rewrite Hidx.
    change (bucket_index TIMEOUT t)
      with (bucket_index TIMEOUT (fst (t, a))).
    rewrite add_bucket_same by assumption.
    cbn [fst].
    destruct (statsBuckets s (bucket_index TIMEOUT t)) as [|first rest].
    + simpl.
      destruct (Z.eqb_spec (t + Z.of_nat TIMEOUT)%Z t); [lia|reflexivity].
    + destruct (Z.eqb_spec t (fst first)) as [Heq|Hneq]; simpl.
      * destruct (Z.eqb_spec (t + Z.of_nat TIMEOUT)%Z (fst first));
          [lia|reflexivity].
      * destruct (Z.eqb_spec (t + Z.of_nat TIMEOUT)%Z t); [lia|reflexivity].
Qed.

Lemma add_routes_and_evicts_witness :
  valid_TIMEOUT 60
  /\ length scenario_lingering = 60
  /\ is_timestamp 1000
  /\ statsBuckets (add_ts 60 scenario_lingering 1000%Z 9%Z) 40
     = [(1000, 5); (1000, 9)]%Z
  /\ statsBuckets (add_ts 60 scenario_lingering 1060%Z 9%Z) 40
     = [(1060, 9)]%Z.
Proof.
  assert (HW : valid_TIMEOUT 60) by (split; [lia|reflexivity]).
  assert (Hlen : length scenario_lingering = 60) by reflexivity.
  assert (H1000 : is_timestamp 1000) by (unfold is_timestamp; lia).
  assert (H1060 : is_timestamp 1060) by (unfold is_timestamp; lia).
  split; [exact HW|]. split; [exact Hlen|]. split; [exact H1000|].
  split.
  - destruct (@add_routes_and_evicts Z 60 scenario_lingering 1000%Z 9%Z
                                      HW Hlen H1000)
      as [_ [_ [_ [Hsame _]]]].
    apply (Hsame (1000, 5)%Z []); reflexivity.
  - destruct (@add_routes_and_evicts Z 60 scenario_lingering 1060%Z 9%Z
                                      HW Hlen H1060)
      as [_ [_ [Hdiff _]]].
    apply (Hdiff (1000, 5)%Z []); [reflexivity|simpl; lia].
Defined.

(** C4. In every reachable state the traversal yields no sample whose
    timestamp is at or below [t_max - W], [t_max] being the largest
    timestamp it yields; so no sample of a bucket whose stored timestamp
    is exactly [t_max - W] is yielded. *)
Theorem view_excludes_stale (T : Type) (TIMEOUT : nat) (s : Stats T) :
  valid_TIMEOUT TIMEOUT -> reachable TIMEOUT s ->
  exists l,
    view TIMEOUT s = Some l
    /\ (forall x, In x l -> ~ (fst x <= t_max l - Z.of_nat TIMEOUT)%Z)
    /\ (forall i first rest,
           statsBuckets s i = first :: rest ->
           fst first = (t_max l - Z.of_nat TIMEOUT)%Z ->
           forall x, In x (statsBuckets s i) -> ~ In x l).
Proof.
  intros HW Hreach. pose proof (wf_reachable HW Hreach) as Hwf.
  exists (window TIMEOUT s). split; [now apply view_window|].
  assert (Hfresh : forall x, In x (window TIMEOUT s) ->
                     ~ (fst x <= t_max (window TIMEOUT s)
                                 - Z.of_nat TIMEOUT)%Z).
  { intros x Hx Hle.
    pose proof (window_bounds HW Hwf _ Hx) as Hb.
    assert (t_max (window TIMEOUT s) <= fst (ctor_scan TIMEOUT s))%Z.
    { apply t_max_le.
      - pose proof (scan_max_timestamp Hwf) as Hm.
        unfold is_timestamp in Hm. lia.
      - intros y Hy. apply (window_bounds HW Hwf _ Hy). }
    lia. }
  split; [exact Hfresh|].
  intros i first rest Eb Hts x Hx Hin.
  apply (Hfresh x Hin).
  destruct Hwf as [_ Hb]. destruct (Hb i x Hx) as [_ [_ Hall]].
  rewrite <- Hts, <- (Hall first); [lia|].
  rewrite Eb. now left.
Qed.

Lemma view_excludes_stale_witness :
  valid_TIMEOUT 60
  /\ reachable 60 scenario_lingering
  /\ exists l,
      view 60 scenario_lingering = Some l
      /\ (forall x, In x l -> ~ (fst x <= t_max l - 60)%Z)
      /\ (forall i first rest,
             statsBuckets scenario_lingering i = first :: rest ->
             fst first = (t_max l - 60)%Z ->
             forall x, In x (statsBuckets scenario_lingering i) -> ~ In x l).
Proof.
  assert (HW : valid_TIMEOUT 60) by (split; [lia|reflexivity]).
  assert (Hr : reachable 60 scenario_lingering).
  { exists [Add (1000, 5)%Z; Add (1061, 7)%Z]. split; [|reflexivity].
    repeat constructor; unfold is_timestamp; simpl; lia. }
  split; [exact HW|]. split; [exact Hr|].
  exact (@view_excludes_stale Z 60 scenario_lingering HW Hr).
Defined.

(** C5 (the code departs from the claim). With W = 60, after [add(0, a)]
    and [add(59, b)] both samples are live by the freshness rule
    (0 is above 59 - 60), yet under every layout of the storage the
    traversal yields [(59, b)] only: [ts_min = 59 - 60] wraps around to
    [2^64 - 1] and [seek] skips bucket 0. The live sample [(0, a)] is not
    yielded. *)
Theorem live_sample_not_yielded (T : Type) (a b : T) (L : layout) :
  live 60 (scenario_epoch a b) (0%Z, a)
  /\ live 60 (scenario_epoch a b) (59%Z, b)
  /\ view_raw 60 L (scenario_epoch a b) = Some [(59%Z, b)]
  /\ ~ In (0%Z, a) [(59%Z, b)].
Proof.
  split; [|split; [|split]].
  - split; [exists 0; now left|]. vm_compute. reflexivity.
  - split; [exists 59; now left|]. vm_compute. reflexivity.
  - rewrite (view_raw_separated valid_TIMEOUT_60);
      vm_compute; reflexivity.
  - intros [H|[]]. discriminate.
Qed.

(** C7. In every reachable state and for every [q], [get_p(q)] throws
    [std::out_of_range] exactly when the container holds no live sample.
    [get_p] is a [const] member function: it returns an outcome and has
    no state to hand back. The other operations do not fail: the
    traversal terminates, under every layout of the storage, and the
    bucket [add] writes is within the array, whose length [add] and
    [clear] keep. *)
Theorem get_p_empty_iff (T : Type) (V : ValueType T) (TIMEOUT : nat)
        (s : Stats T) (q : Z) :
  valid_TIMEOUT TIMEOUT -> reachable TIMEOUT s ->
  (get_p TIMEOUT s q = Throw_out_of_range
   <-> forall x, ~ live TIMEOUT s x)
  /\ (exists l, view TIMEOUT s = Some l)
  /\ (forall L, exists l, view_raw TIMEOUT L s = Some l)
  /\ (forall sp,
         bucket_index TIMEOUT (fst sp) < length s
         /\ length (add TIMEOUT s sp) = length s)
  /\ length (clear TIMEOUT s) = length s
  /\ size TIMEOUT s = length (concat s).
Proof.
  intros HW Hreach. pose proof (wf_reachable HW Hreach) as Hwf.
  pose proof Hwf as [Hlen _].
  split; [|split; [|split; [|split; [|split]]]].
  - rewrite get_p_throw_iff, (size_zero_iff Hwf).
    now apply no_stored_iff_no_live.
  - exists (window TIMEOUT s). now apply view_window.
  - intros L. destruct (view_raw_prefix HW L s) as [l [_ [Hl _]]].
    now exists l.
  - intros sp. split; [|apply add_length].
    rewrite Hlen. now apply bucket_index_lt.
  - apply clear_length.
  - now apply size_concat.
Qed.

Lemma get_p_empty_iff_witness :
  valid_TIMEOUT 60
  /\ reachable 60 (@empty_stats Z 60)
  /\ get_p 60 (@empty_stats Z 60) 50 = Throw_out_of_range
  /\ forall x, ~ live 60 (@empty_stats Z 60) x.
Proof.
  assert (HW : valid_TIMEOUT 60) by (split; [lia|reflexivity]).
  assert (Hr : reachable 60 (@empty_stats Z 60)).
  { exists []. split; [constructor|reflexivity]. }
  split; [exact HW|]. split; [exact Hr|].
  destruct (@get_p_empty_iff Z Z_ValueType 60 (empty_stats 60) 50%Z HW Hr)
    as [[Hthrow _] _].
  split; [reflexivity|]. apply Hthrow. reflexivity.
Defined.

(** C8. After any sequence of [add] calls on a fresh container,
    [size()] is the sum of the bucket lengths, which is the number of
    calls not evicted by a later call to the same bucket with another
    timestamp; each bucket holds those of them routed to it. The count
    is independent of staleness and bounds what the traversal yields:
    after [add(1000, 5)] and [add(1061, 7)] with W = 60, [size()] is 2
    while the traversal yields one sample. *)
Theorem size_counts_unevicted (T : Type) (TIMEOUT : nat)
        (h : list (StatsPair T)) :
  valid_TIMEOUT TIMEOUT ->
  Forall (fun sp => is_timestamp (fst sp)) h ->
  size TIMEOUT (add_all TIMEOUT h)
  = list_sum (map (@length _) (add_all TIMEOUT h))
  /\ size TIMEOUT (add_all TIMEOUT h) = length (survivors TIMEOUT h)
  /\ (forall i, statsBuckets (add_all TIMEOUT h) i
                = filter (in_bucket TIMEOUT i) (survivors TIMEOUT h))
  /\ (exists l, view TIMEOUT (add_all TIMEOUT h) = Some l
                /\ length l <= size TIMEOUT (add_all TIMEOUT h))
  /\ (size 60 scenario_lingering = 2
      /\ view 60 scenario_lingering = Some [(1061, 7)]%Z).
Proof.
  intros HW Hh. pose proof (wf_add_all HW Hh) as [Hlen _].
  split; [|split; [|split; [|split]]].
  - rewrite size_concat by assumption. apply length_concat.
  - now apply size_add_all.
  - intros i. now apply add_all_survivors.
  - exists (window TIMEOUT (add_all TIMEOUT h)).
    split; [now apply view_window|now apply window_length].
  - split; reflexivity.
Qed.

Lemma size_counts_unevicted_witness :
  valid_TIMEOUT 3
  /\ Forall (fun sp : StatsPair Z => is_timestamp (fst sp))
            [(100, 1); (101, 2); (102, 3); (103, 4)]%Z
  /\ size 3 (add_all 3 [(100, 1); (101, 2); (102, 3); (103, 4)]%Z)
     = length [(101, 2); (102, 3); (103, 4)]%Z.
Proof.
  assert (HW : valid_TIMEOUT 3) by (split; [lia|reflexivity]).
  assert (Hh : Forall (fun sp : StatsPair Z => is_timestamp (fst sp))
                      [(100, 1); (101, 2); (102, 3); (103, 4)]%Z)
    by (repeat constructor; unfold is_timestamp; simpl; lia).
  split; [exact HW|]. split; [exact Hh|].
  destruct (@size_counts_unevicted Z 3 _ HW Hh) as [_ [Hs _]].
  rewrite Hs. reflexivity.
Defined.

(** * Further properties of the container *)

(** ** The scratch vector and the rank selection *)

Section SelectionFacts.

Context {T : Type} `{ValueType T}.

Lemma transform_exact {A : Type} (f : A -> T) (src : list A) (v : list T) :
  length src <= length v ->
  transform f src v = Some (map f src ++ skipn (length src) v).
Proof.
  revert v. induction src as [|x src IH]; intros v Hlen; [reflexivity|].
  destruct v as [|z v]; simpl in Hlen; [lia|].
  cbn [transform]. rewrite IH by lia. reflexivity.
Qed.

Lemma skipn_repeat_sub {A : Type} (x : A) (n m : nat) :
  skipn n (repeat x m) = repeat x (m - n).
Proof.
  revert m. induction n as [|n IH]; intros [|m]; simpl; auto.
Qed.



End SelectionFacts.

Lemma insert_sorted_Z (x : Z) (l : list Z) :
  StronglySorted Z.le l -> StronglySorted Z.le (insert_sorted x l).
Proof.
  induction 1 as [|y l Hs IH Hy]; simpl.
  - constructor; constructor.
  - destruct (Z.ltb_spec y x) as [Hlt|Hge].
    + constructor; [exact IH|].
      apply Forall_forall. intros z Hz.
      apply insert_sorted_in in Hz. destruct Hz as [->|Hz]; [lia|].
      rewrite Forall_forall in Hy. now apply Hy.
    + constructor; [now constructor|].
      constructor; [exact Hge|].
      rewrite Forall_forall in *. intros z Hz. specialize (Hy z Hz). lia.
Qed.

Lemma sorted_Z (l : list Z) : StronglySorted Z.le (sorted l).
Proof.
  induction l as [|x l IH]; simpl; [constructor|].
  now apply insert_sorted_Z.
Qed.

Section RankFacts.

Context {T : Type} `{ValueType T}.
Variable TIMEOUT : nat.
Hypothesis TIMEOUT_ok : valid_TIMEOUT TIMEOUT.

(** [get_p] on a non-empty container, with the traversal and the copy
    into the scratch vector carried out. *)
Lemma get_p_unfolded (s : Stats T) (p : Z) :
  size TIMEOUT s <> 0 ->
  get_p TIMEOUT s p
  = match nth_error
            (sorted (map snd (window TIMEOUT s)
                     ++ repeat value_init
                          (size TIMEOUT s - length (window TIMEOUT s))))
            (percentile_index (size TIMEOUT s) p)
    with
    | Some x => Value x
    | None => Out_of_bounds (percentile_index (size TIMEOUT s) p)
                            (size TIMEOUT s)
    end.
Proof.
  intros Hne. unfold get_p.
  destruct (Nat.eqb_spec (size TIMEOUT s) 0) as [E|_]; [contradiction|].
  rewrite view_window by assumption.
  rewrite transform_exact
    by (rewrite repeat_length; now apply window_length).
  now rewrite skipn_repeat_sub.
Qed.

Lemma percentile_index_lt (sz : nat) (p : Z) :
  (0 <= p)%Z -> (Z.of_nat sz * p + 99 < 2 ^ 64)%Z ->
  percentile_index sz p < sz
  <-> (Z.of_nat sz * p + 99 < 100 * Z.of_nat sz)%Z.
Proof.
  intros Hp Hsmall. unfold percentile_index, wrap64.
  assert (Hnn : (0 <= Z.of_nat sz * p)%Z) by (apply Z.mul_nonneg_nonneg; lia).
  rewrite Z.mod_small by lia.
  set (a := (Z.of_nat sz * p + 99)%Z) in *.
  assert (Hdiv : (0 <= a / 100)%Z) by (apply Z.div_pos; lia).
  pose proof (Z.div_mod a 100 ltac:(lia)) as Ea.
  pose proof (Z.mod_pos_bound a 100 ltac:(lia)) as Hm.
  split; intros Hlt; lia.
Qed.

End RankFacts.

(** ** How one call changes the container *)

Section CallFacts.

Context {T : Type}.
Variable TIMEOUT : nat.
Hypothesis TIMEOUT_ok : valid_TIMEOUT TIMEOUT.

Lemma flat_map_length_swap {B : Type} (g g' : nat -> list B) (i : nat)
      (l : list nat) :
  (forall j, j <> i -> length (g' j) = length (g j)) ->
  length (flat_map g' l) + length (g i) * count_occ Nat.eq_dec l i
  = length (flat_map g l) + length (g' i) * count_occ Nat.eq_dec l i.
Proof.
  intros Hother. induction l as [|a l IH]; simpl; [lia|].
  rewrite !length_app.
  destruct (Nat.eq_dec a i) as [->|Hne].
  - rewrite !Nat.mul_succ_r. lia.
  - rewrite Hother by assumption. lia.
Qed.

(** [add] changes the total by what it does to its bucket. *)
Lemma size_add_bucket (s : Stats T) (sp : StatsPair T) :
  size TIMEOUT (add TIMEOUT s sp)
  + length (statsBuckets s (bucket_index TIMEOUT (fst sp)))
  = size TIMEOUT s
    + length (statsBuckets (add TIMEOUT s sp)
                           (bucket_index TIMEOUT (fst sp))).
Proof.
  rewrite !size_flat_map.
  pose proof (@flat_map_length_swap _ (statsBuckets s)
                (statsBuckets (add TIMEOUT s sp))
                (bucket_index TIMEOUT (fst sp)) (seq 0 TIMEOUT)) as Hswap.
  rewrite count_occ_seq in Hswap by apply (bucket_index_lt TIMEOUT_ok).
  rewrite !Nat.mul_1_r in Hswap. apply Hswap.
  intros j Hj. now rewrite add_bucket_other by assumption.
Qed.

Lemma stored_add (s : Stats T) (sp x : StatsPair T) :
  length s = TIMEOUT ->
  stored (add TIMEOUT s sp) x -> x = sp \/ stored s x.
Proof.
  intros Hlen [i Hx].
  destruct (Nat.eq_dec i (bucket_index TIMEOUT (fst sp))) as [->|Hne].
  - rewrite add_bucket_same in Hx by assumption.
    apply in_app_or in Hx. destruct Hx as [Hx|[<-|[]]]; [|now left].
    right. exists (bucket_index TIMEOUT (fst sp)).
    destruct (statsBuckets s (bucket_index TIMEOUT (fst sp)))
      as [|first rest]; [destruct Hx|].
    destruct (fst sp =? fst first)%Z; [exact Hx|destruct Hx].
  - rewrite add_bucket_other in Hx by assumption. right. now exists i.
Qed.

Lemma stored_added (s : Stats T) (sp : StatsPair T) :
  length s = TIMEOUT -> stored (add TIMEOUT s sp) sp.
Proof.
  intros Hlen. exists (bucket_index TIMEOUT (fst sp)).
  rewrite add_bucket_same by assumption. apply in_or_app. right. now left.
Qed.

(** The window ends with the bucket [index_max]. *)
Lemma window_from_ends (s : Stats T) (imax : nat) (tmin : Z) (d : nat) :
  exists older,
    window_from TIMEOUT s imax tmin d = older ++ statsBuckets s imax.
Proof.
  induction d as [|d [older IH]].
  - exists []. simpl. unfold chunk. now rewrite Nat.eqb_refl.
  - exists (chunk s imax tmin (ring_index TIMEOUT imax (S d)) ++ older).
    cbn [window_from]. now rewrite IH, app_assoc.
Qed.

Lemma clear_empty (s : Stats T) :
  length s = TIMEOUT -> clear TIMEOUT s = empty_stats TIMEOUT.
Proof.
  intros Hlen. apply (nth_ext _ _ [] []).
  - etransitivity; [apply clear_length|].
    etransitivity; [exact Hlen|]. symmetry. apply empty_length.
  - intros n _.
    change (statsBuckets (clear TIMEOUT s) n
            = statsBuckets (@empty_stats T TIMEOUT) n).
    now rewrite clear_bucket, empty_bucket.
Qed.

Lemma ctor_scan_empty : ctor_scan TIMEOUT (@empty_stats T TIMEOUT) = (0%Z, 0).
Proof.
  pose proof (@wf_empty T TIMEOUT) as [_ Hb].
  destruct (ctor_scan_loop (@empty_stats T TIMEOUT) TIMEOUT Hb)
    as [[[H0 Hi0]|[_ [first [rest [Eb _]]]]] _].
  - unfold ctor_scan. revert H0 Hi0.
    destruct (fold_left _ _ _) as [m i]. simpl. intros -> ->. reflexivity.
  - rewrite empty_bucket in Eb. discriminate.
Qed.

End CallFacts.

(** ** Insertions with a clock that does not go back *)

Lemma same_bucket_close (w a b : Z) :
  (0 < w)%Z -> (0 <= b - a < w)%Z -> (a mod w = b mod w)%Z -> a = b.
Proof.
  intros Hw Hab E.
  pose proof (Z.div_mod a w ltac:(lia)) as Ea.
  pose proof (Z.div_mod b w ltac:(lia)) as Eb.
  rewrite E in Ea.
  set (qa := (a / w)%Z) in *. set (qb := (b / w)%Z) in *.
  assert (qb = qa) by nia. subst qb. lia.
Qed.

Section GroupFacts.

Context {T : Type}.

Lemma StronglySorted_filter_ts (f : StatsPair T -> bool)
      (l : list (StatsPair T)) :
  StronglySorted (@ts_le T) l -> StronglySorted (@ts_le T) (filter f l).
Proof.
  induction 1 as [|x l Hs IH Hx]; simpl; [constructor|].
  destruct (f x); [|exact IH].
  constructor; [exact IH|].
  rewrite Forall_forall in *. intros y Hy.
  apply Hx. now apply filter_In in Hy.
Qed.

(** Two sequences in timestamp order with the same samples, in the same
    order, for every timestamp are equal. *)
Lemma sorted_groups_eq (l1 : list (StatsPair T)) :
  forall l2,
    StronglySorted (@ts_le T) l1 -> StronglySorted (@ts_le T) l2 ->
    (forall t, filter (same_ts t) l1 = filter (same_ts t) l2) ->
    l1 = l2.
Proof.
  assert (Hself : forall (z : StatsPair T) l,
                    In z (filter (same_ts (fst z)) (z :: l))).
  { intros z l. apply filter_In. split; [now left|apply Z.eqb_refl]. }
  induction l1 as [|x l1 IH]; intros l2 H1 H2 Hg.
  - destruct l2 as [|y l2]; [reflexivity|].
    pose proof (Hself y l2) as Hin. rewrite <- Hg in Hin. destruct Hin.
  - destruct l2 as [|y l2].
    + pose proof (Hself x l1) as Hin. rewrite Hg in Hin. destruct Hin.
    + inversion H1 as [|? ? H1' Hx]; subst.
      inversion H2 as [|? ? H2' Hy]; subst.
      rewrite Forall_forall in Hx, Hy.
      assert (Hxy : (fst y <= fst x)%Z).
      { pose proof (Hself x l1) as Hin. rewrite Hg in Hin.
        apply filter_In in Hin. destruct Hin as [[->|Hin] _]; [lia|].
        apply (Hy x Hin). }
      assert (Hyx : (fst x <= fst y)%Z).
      { pose proof (Hself y l2) as Hin. rewrite <- Hg in Hin.
        apply filter_In in Hin. destruct Hin as [[->|Hin] _]; [lia|].
        apply (Hx y Hin). }
      assert (Sx : same_ts (fst x) x = true) by apply Z.eqb_refl.
      assert (Sy : same_ts (fst x) y = true) by (apply Z.eqb_eq; lia).
      pose proof (Hg (fst x)) as E. cbn [filter] in E.
      rewrite Sx, Sy in E. inversion E as [[Exy Erest]]. subst y. f_equal.
      apply IH; try assumption.
      intros t. destruct (Z.eq_dec t (fst x)) as [->|Hne]; [exact Erest|].
      assert (St : same_ts t x = false) by (apply Z.eqb_neq; congruence).
      specialize (Hg t). cbn [filter] in Hg. now rewrite St in Hg.
Qed.

Lemma t_max_attained (l : list (StatsPair T)) :
  l <> [] -> Forall (fun sp => is_timestamp (fst sp)) l ->
  exists z, In z l /\ fst z = t_max l.
Proof.
  induction l as [|x l IH]; intros Hne Hts; [congruence|].
  inversion Hts as [|? ? Hx Hl]; subst. unfold t_max. simpl.
  fold (t_max l).
  destruct (Z.max_spec (fst x) (t_max l)) as [[Hlt ->]|[Hge ->]].
  - destruct l as [|y l].
    + unfold t_max in Hlt. simpl in Hlt. cbv beta in Hx.
      unfold is_timestamp in Hx. exfalso.
      destruct Hx as [Hx _]. apply (Z.lt_irrefl 0).
      eapply Z.le_lt_trans; [exact Hx|exact Hlt].
    + destruct IH as [z [Hz Ez]]; [discriminate|exact Hl|].
      exists z. split; [now right|exact Ez].
  - exists x. split; [now left|reflexivity].
Qed.

End GroupFacts.

Section MonotoneFacts.

Context {T : Type}.
Variable TIMEOUT : nat.
Hypothesis TIMEOUT_ok : valid_TIMEOUT TIMEOUT.

Lemma t_max_cons (x : StatsPair T) (l : list (StatsPair T)) :
  t_max (x :: l) = Z.max (fst x) (t_max l).
Proof. reflexivity. Qed.

(** With timestamps that do not decrease, no call evicts a sample of the
    last [W] seconds. *)
Lemma monotone_survivors (h : list (StatsPair T)) (t : timestamp_type) :
  StronglySorted (@ts_le T) h ->
  Forall (fun sp : StatsPair T => is_timestamp (fst sp)) h ->
  (t_max h - Z.of_nat TIMEOUT < t)%Z ->
  filter (same_ts t) (survivors TIMEOUT h) = filter (same_ts t) h.
Proof.
  induction h as [|x h IH]; intros Hs Hts Ht; [reflexivity|].
  inversion Hs as [|? ? Hs' Hx]; subst.
  inversion Hts as [|? ? Hxts Hts']; subst.
  rewrite t_max_cons in Ht.
  specialize (IH Hs' Hts' ltac:(lia)).
  cbn [survivors]. destruct (same_ts t x) eqn:St.
  - assert (Hsurv : survives TIMEOUT h x = true).
    { apply forallb_forall. intros y Hy. apply negb_true_iff.
      unfold evicts.
      destruct (Nat.eqb_spec (bucket_index TIMEOUT (fst y))
                             (bucket_index TIMEOUT (fst x))) as [E|_];
        [|reflexivity].
      simpl. apply negb_false_iff, Z.eqb_eq. symmetry.
      destruct TIMEOUT_ok as [Hpos _].
      apply same_bucket_close with (w := Z.of_nat TIMEOUT); [lia| |].
      - rewrite Forall_forall in Hx. specialize (Hx y Hy).
        unfold ts_le in Hx. pose proof (t_max_ge _ _ Hy) as Hle.
        apply Z.eqb_eq in St. lia.
      - rewrite <- !(bucket_index_Z TIMEOUT_ok). now rewrite E. }
    rewrite Hsurv. cbn [filter]. rewrite St. f_equal. exact IH.
  - destruct (survives TIMEOUT h x); cbn [filter]; rewrite ?St; exact IH.
Qed.

Section History.

Variable h : list (StatsPair T).
Hypothesis h_ts : Forall (fun sp : StatsPair T => is_timestamp (fst sp)) h.
Hypothesis h_mono : StronglySorted (@ts_le T) h.
Hypothesis h_ne : h <> [].

Lemma stored_survivor (z : StatsPair T) :
  stored (add_all TIMEOUT h) z <-> In z (survivors TIMEOUT h).
Proof.
  unfold stored. split.
  - intros [i Hz]. rewrite (add_all_survivors TIMEOUT_ok _ h_ts) in Hz.
    now apply filter_In in Hz.
  - intros Hz. exists (bucket_index TIMEOUT (fst z)).
    rewrite (add_all_survivors TIMEOUT_ok _ h_ts). apply filter_In.
    split; [exact Hz|apply Nat.eqb_refl].
Qed.

Lemma recent_stored (z : StatsPair T) :
  In z h -> (t_max h - Z.of_nat TIMEOUT < fst z)%Z ->
  stored (add_all TIMEOUT h) z.
Proof.
  intros Hz Hrecent. apply stored_survivor.
  assert (Hin : In z (filter (same_ts (fst z)) h))
    by (apply filter_In; split; [exact Hz|apply Z.eqb_refl]).
  rewrite <- (monotone_survivors h_mono h_ts Hrecent) in Hin.
  now apply filter_In in Hin.
Qed.

Lemma monotone_scan_max :
  fst (ctor_scan TIMEOUT (add_all TIMEOUT h)) = t_max h.
Proof.
  pose proof (wf_add_all TIMEOUT_ok h_ts) as Hwf.
  destruct TIMEOUT_ok as [Hpos _].
  destruct (t_max_attained h_ne h_ts) as [z [Hz Ez]].
  assert (Hst : stored (add_all TIMEOUT h) z)
    by (apply recent_stored; [exact Hz|lia]).
  pose proof (scan_max_ge Hwf Hst) as Hge.
  destruct (scan_max_bucket Hwf Hst) as [first [rest [Eb Hf]]].
  assert (Hfirst : In first h).
  { apply (@survivors_incl T TIMEOUT), stored_survivor.
    eexists. rewrite Eb. now left. }
  apply t_max_ge in Hfirst. lia.
Qed.

(** The samples of one recent second in the window are the calls made
    with that timestamp. *)
Lemma window_group (t : timestamp_type) :
  (t_max h - Z.of_nat TIMEOUT < t)%Z ->
  (forall z, In z h -> fst z = t -> In z (window TIMEOUT (add_all TIMEOUT h))) ->
  filter (same_ts t) (window TIMEOUT (add_all TIMEOUT h))
  = filter (same_ts t) h.
Proof.
  intros Ht Hin. pose proof (wf_add_all TIMEOUT_ok h_ts) as Hwf.
  pose proof TIMEOUT_ok as [Hpos _].
  destruct (@window_from_filter T TIMEOUT TIMEOUT_ok _ Hwf t (TIMEOUT - 1))
    as [Hnil|[i [first [rest [Eb [Hts Hf]]]]]]; [lia| |].
  - fold (window TIMEOUT (add_all TIMEOUT h)) in Hnil. rewrite Hnil.
    symmetry. apply filter_none. intros z Hz.
    destruct (same_ts t z) eqn:St; [|reflexivity].
    exfalso. apply Z.eqb_eq in St.
    assert (Hw : In z (filter (same_ts t) (window TIMEOUT (add_all TIMEOUT h)))).
    { apply filter_In. split; [now apply Hin|now apply Z.eqb_eq]. }
    rewrite Hnil in Hw. destruct Hw.
  - fold (window TIMEOUT (add_all TIMEOUT h)) in Hf. rewrite Hf, <- Eb.
    rewrite (add_all_survivors TIMEOUT_ok _ h_ts).
    rewrite <- (monotone_survivors h_mono h_ts Ht).
    apply filter_ext_in. intros z Hz. unfold in_bucket, same_ts.
    destruct Hwf as [_ Hb].
    assert (Hi : bucket_index TIMEOUT t = i).
    { destruct (Hb i first) as [_ [Hidx _]]; [rewrite Eb; now left|].
      now rewrite <- Hts. }
    destruct (Nat.eqb_spec (bucket_index TIMEOUT (fst z)) i) as [E|E];
      destruct (Z.eqb_spec (fst z) t) as [E'|E']; try reflexivity.
    + exfalso. apply E'.
      assert (Hzi : In z (statsBuckets (add_all TIMEOUT h) i)).
      { rewrite (add_all_survivors TIMEOUT_ok _ h_ts). apply filter_In.
        split; [exact Hz|now apply Nat.eqb_eq]. }
      destruct (Hb i z Hzi) as [_ [_ Hall]].
      rewrite <- Hts. symmetry. apply Hall. rewrite Eb. now left.
    + exfalso. apply E. now rewrite E'.
Qed.

(** Before [max] has reached [W], only the samples of the second [max]
    are in the window. *)
Lemma window_first_seconds (z : StatsPair T) :
  (t_max h < Z.of_nat TIMEOUT)%Z ->
  In z (window TIMEOUT (add_all TIMEOUT h)) -> fst z = t_max h.
Proof.
  intros Hlt Hz. pose proof (wf_add_all TIMEOUT_ok h_ts) as Hwf.
  pose proof TIMEOUT_ok as [Hpos Hint].
  pose proof monotone_scan_max as Hmax.
  pose proof (scan_max_timestamp Hwf) as Hmts. rewrite Hmax in Hmts.
  pose proof (index_max_lt TIMEOUT_ok (add_all TIMEOUT h)) as Hm.
  apply window_from_incl in Hz. destruct Hz as [d [Hd Hz]].
  destruct d as [|d].
  - rewrite ring_index_0 in Hz. unfold chunk in Hz.
    rewrite Nat.eqb_refl in Hz.
    now rewrite (scan_max_samples Hwf _ Hz).
  - exfalso. unfold chunk in Hz.
    destruct (Nat.eqb_spec
                (ring_index TIMEOUT (snd (ctor_scan TIMEOUT (add_all TIMEOUT h)))
                            (S d))
                (snd (ctor_scan TIMEOUT (add_all TIMEOUT h)))) as [E|_].
    { revert E. apply ring_index_neq; lia. }
    apply take_while_incl in Hz. destruct Hz as [Hz Hfresh].
    assert (Hst : stored (add_all TIMEOUT h) z) by (eexists; exact Hz).
    pose proof (scan_max_ge Hwf Hst) as Hle. rewrite Hmax in Hle, Hfresh.
    unfold fresh in Hfresh. apply negb_true_iff, Z.ltb_ge in Hfresh.
    assert (H64 : (2 ^ 31 < 2 ^ 64)%Z) by reflexivity.
    rewrite wrap64_sub_small in Hfresh by (assumption || lia).
    lia.
Qed.

End History.

End MonotoneFacts.

Lemma filter_filter_implies {A : Type} (f g : A -> bool) (l : list A) :
  (forall x, In x l -> f x = true -> g x = true) ->
  filter f (filter g l) = filter f l.
Proof.
  induction l as [|x l IH]; intros Himp; [reflexivity|]. simpl.
  assert (IH' : filter f (filter g l) = filter f l)
    by (apply IH; intros y Hy; apply Himp; now right).
  destruct (g x) eqn:Eg; simpl.
  - now rewrite IH'.
  - destruct (f x) eqn:Ef; [|exact IH'].
    rewrite (Himp x (or_introl eq_refl) Ef) in Eg. discriminate.
Qed.

Lemma index_max_make_iterator {T : Type} (TIMEOUT : nat) (s : Stats T) :
  index_max (make_iterator TIMEOUT s) = snd (ctor_scan TIMEOUT s)
  /\ ts_min (make_iterator TIMEOUT s)
     = wrap64 (fst (ctor_scan TIMEOUT s) - Z.of_nat TIMEOUT).
Proof.
  unfold make_iterator. destruct (ctor_scan TIMEOUT s) as [m i]. now split.
Qed.

(** ** Properties of the operations *)

(** X1. For every array of buckets, reachable or not, and every layout
    of the buckets' storage, the loop from [begin()] to [end()]
    terminates and never dereferences a position past the end of a
    bucket. It yields a beginning of the window: stored samples only, at
    most [size()] of them. When no sample it can stop on lies at the
    address [end()] holds, it yields the whole window, the whole bucket
    [index_max] included. *)
Theorem iteration_reaches_end (T : Type) (TIMEOUT : nat) (L : layout)
        (s : Stats T) :
  valid_TIMEOUT TIMEOUT ->
  exists l rest,
    view_raw TIMEOUT L s = Some l
    /\ window TIMEOUT s = l ++ rest
    /\ (forall x, In x l -> stored s x)
    /\ length l <= size TIMEOUT s
    /\ (separated TIMEOUT L s = true ->
        rest = []
        /\ forall x,
            In x (statsBuckets s (index_max (make_iterator TIMEOUT s))) ->
            In x l).
Proof.
  intros HW. destruct (view_raw_prefix HW L s) as [l [rest [Hv [Hw Hfull]]]].
  exists l, rest. split; [exact Hv|]. split; [exact Hw|].
  split; [|split].
  - intros x Hx. apply (@window_stored T TIMEOUT). rewrite Hw.
    apply in_or_app. now left.
  - pose proof (window_length HW s) as Hlen.
    rewrite Hw, length_app in Hlen. lia.
  - intros Hs. specialize (Hfull Hs). split; [exact Hfull|].
    intros x Hx. destruct (index_max_make_iterator TIMEOUT s) as [Ei _].
    rewrite Ei in Hx. subst rest. rewrite app_nil_r in Hw. rewrite <- Hw.
    unfold window. now apply window_from_max.
Qed.

Lemma iteration_reaches_end_witness :
  valid_TIMEOUT 60
  /\ separated 60 spaced_layout scenario_three = true
  /\ view_raw 60 spaced_layout scenario_three
     = Some [(1000, 10); (1000, 20); (1030, 30)]%Z.
Proof.
  assert (HW : valid_TIMEOUT 60) by (split; [lia|reflexivity]).
  assert (Hs : separated 60 spaced_layout scenario_three = true)
    by (vm_compute; reflexivity).
  split; [exact HW|]. split; [exact Hs|].
  destruct (@iteration_reaches_end Z 60 spaced_layout scenario_three HW)
    as [l [rest [Hl [Hw [_ [_ Hfull]]]]]].
  destruct (Hfull Hs) as [-> _]. rewrite app_nil_r in Hw.
  rewrite Hl, <- Hw. vm_compute. reflexivity.
Defined.

(** When the block of bucket 40 begins where the block of bucket 41
    ends, [begin()] and [end()] hold the same address and the loop yields
    nothing, although the window holds two samples. *)
Example packed_storage_ends_traversal :
  window 60 scenario_neighbours = [(1060, 2); (1061, 3)]%Z
  /\ separated 60 packed_layout scenario_neighbours = false
  /\ view_raw 60 packed_layout scenario_neighbours = Some [].
Proof. repeat split; vm_compute; reflexivity. Qed.

(** X2. [clear()] puts the container back in its freshly constructed
    state: afterwards [size()] is 0, [begin()] equals [end()] so the
    traversal yields nothing, and [get_p] throws for every [p]. *)
Theorem clear_resets (T : Type) (V : ValueType T) (TIMEOUT : nat)
        (s : Stats T) :
  valid_TIMEOUT TIMEOUT -> length s = TIMEOUT ->
  clear TIMEOUT s = empty_stats TIMEOUT
  /\ size TIMEOUT (clear TIMEOUT s) = 0
  /\ view TIMEOUT (clear TIMEOUT s) = Some []
  /\ (exists b, begin_ TIMEOUT (clear TIMEOUT s) = Some b
                /\ it_neq b (end_ TIMEOUT (clear TIMEOUT s)) = false)
  /\ forall p, get_p TIMEOUT (clear TIMEOUT s) p = Throw_out_of_range.
Proof.
  intros HW Hlen. rewrite clear_empty by exact Hlen.
  pose proof (@wf_empty T TIMEOUT) as Hwf.
  assert (Hnone : forall x : StatsPair T,
                    ~ stored (@empty_stats T TIMEOUT) x).
  { intros x [i Hx]. rewrite empty_bucket in Hx. destruct Hx. }
  assert (Hsize : size TIMEOUT (@empty_stats T TIMEOUT) = 0)
    by now apply (size_zero_iff Hwf).
  assert (Hview : view TIMEOUT (@empty_stats T TIMEOUT) = Some []).
  { rewrite view_window by assumption. f_equal.
    now apply (no_stored_iff_window_nil HW Hwf). }
  split; [reflexivity|]. split; [exact Hsize|]. split; [exact Hview|].
  split.
  - unfold view in Hview. rewrite Hsize in Hview.
    destruct (begin_ TIMEOUT (@empty_stats T TIMEOUT)) as [b|];
      [|discriminate].
    exists b. split; [reflexivity|]. simpl in Hview.
    destruct (it_neq b (end_ TIMEOUT (@empty_stats T TIMEOUT)));
      [discriminate|reflexivity].
  - intros p. now apply get_p_throw_iff.
Qed.

Lemma clear_resets_witness :
  valid_TIMEOUT 60
  /\ length scenario_lingering = 60
  /\ size 60 (clear 60 scenario_lingering) = 0
  /\ get_p 60 (clear 60 scenario_lingering) 70 = Throw_out_of_range.
Proof.
  assert (HW : valid_TIMEOUT 60) by (split; [lia|reflexivity]).
  assert (Hlen : length scenario_lingering = 60) by reflexivity.
  split; [exact HW|]. split; [exact Hlen|].
  destruct (@clear_resets Z Z_ValueType 60 scenario_lingering HW Hlen)
    as [_ [Hs [_ [_ Hp]]]].
  split; [exact Hs|apply Hp].
Defined.

(** X3. In every state reached by [add] and [clear], a bucket holds
    samples of one timestamp only, and bucket [i] holds timestamps
    congruent to [i] modulo [TIMEOUT]. *)
Theorem buckets_hold_one_second (T : Type) (TIMEOUT : nat) (s : Stats T) :
  valid_TIMEOUT TIMEOUT -> reachable TIMEOUT s ->
  length s = TIMEOUT
  /\ forall i x y,
      In x (statsBuckets s i) -> In y (statsBuckets s i) ->
      fst x = fst y
      /\ Z.of_nat i = (fst x mod Z.of_nat TIMEOUT)%Z
      /\ i < TIMEOUT.
Proof.
  intros HW Hr. destruct (wf_reachable HW Hr) as [Hlen Hb].
  split; [exact Hlen|]. intros i x y Hx Hy.
  destruct (Hb i x Hx) as [_ [Hidx Hall]].
  split; [symmetry; now apply Hall|].
  rewrite <- Hidx. split; [apply (bucket_index_Z HW)|].
  apply (bucket_index_lt HW).
Qed.

Lemma buckets_hold_one_second_witness :
  valid_TIMEOUT 60
  /\ reachable 60 scenario_three
  /\ forall x y,
      In x (statsBuckets scenario_three 40) ->
      In y (statsBuckets scenario_three 40) -> fst x = fst y.
Proof.
  assert (HW : valid_TIMEOUT 60) by (split; [lia|reflexivity]).
  assert (Hr : reachable 60 scenario_three).
  { exists [Add (1000, 10)%Z; Add (1000, 20)%Z; Add (1030, 30)%Z].
    split; [|reflexivity].
    repeat constructor; unfold is_timestamp; simpl; lia. }
  split; [exact HW|]. split; [exact Hr|].
  destruct (@buckets_hold_one_second Z 60 scenario_three HW Hr) as [_ H].
  intros x y Hx Hy. exact (proj1 (H 40 x y Hx Hy)).
Defined.

(** X4. In every reachable state the iterator's constructor finds the
    largest stored timestamp: [ts_min] is that timestamp minus [TIMEOUT]
    in 64-bit unsigned arithmetic, [index_max] is within the array, and in
    a non-empty container the bucket [index_max] is not empty and holds
    that timestamp. In an empty container [index_max] is 0. *)
Theorem constructor_finds_newest (T : Type) (TIMEOUT : nat) (s : Stats T) :
  valid_TIMEOUT TIMEOUT -> reachable TIMEOUT s ->
  let it := make_iterator TIMEOUT s in
  ts_min it = wrap64 (t_max (concat s) - Z.of_nat TIMEOUT)
  /\ index_max it < TIMEOUT
  /\ (concat s = [] -> index_max it = 0)
  /\ (concat s <> [] ->
      statsBuckets s (index_max it) <> []
      /\ index_max it = bucket_index TIMEOUT (t_max (concat s))
      /\ forall y, In y (statsBuckets s (index_max it)) ->
                   fst y = t_max (concat s)).
Proof.
  intros HW Hr it. subst it. pose proof (wf_reachable HW Hr) as Hwf.
  destruct (index_max_make_iterator TIMEOUT s) as [-> ->].
  assert (Hempty : concat s = [] -> ctor_scan TIMEOUT s = (0%Z, 0)).
  { intros Hnil. destruct Hwf as [_ Hb].
    destruct (ctor_scan_loop s TIMEOUT Hb)
      as [[[H0 Hi0]|[_ [first [rest [Eb _]]]]] _].
    - unfold ctor_scan. revert H0 Hi0.
      destruct (fold_left _ _ _) as [m i]. simpl. now intros -> ->.
    - exfalso.
      assert (Hin : In first (concat s)).
      { apply stored_concat. eexists. rewrite Eb. now left. }
      rewrite Hnil in Hin. destruct Hin. }
  assert (Hmax : fst (ctor_scan TIMEOUT s) = t_max (concat s)).
  { destruct (concat s) as [|x l] eqn:Ec.
    - now rewrite Hempty.
    - rewrite <- Ec. symmetry. apply (stored_t_max_eq Hwf (x := x)).
      apply stored_concat. rewrite Ec. now left. }
  split; [now rewrite Hmax|].
  split; [apply (index_max_lt HW)|].
  split; [intros Hnil; now rewrite Hempty|].
  intros Hne. destruct (concat s) as [|x l] eqn:Ec; [congruence|].
  assert (Hx : stored s x) by (apply stored_concat; rewrite Ec; now left).
  rewrite <- Ec in *.
  destruct (scan_max_bucket Hwf Hx) as [first [rest [Eb _]]].
  split; [rewrite Eb; discriminate|].
  split; [rewrite <- Hmax; exact (scan_index_max Hwf Hx)|].
  intros y Hy. rewrite <- Hmax. now apply (scan_max_samples Hwf).
Qed.

Lemma constructor_finds_newest_witness :
  valid_TIMEOUT 60
  /\ reachable 60 scenario_lingering
  /\ ts_min (make_iterator 60 scenario_lingering)
     = wrap64 (t_max (concat scenario_lingering) - 60).
Proof.
  assert (HW : valid_TIMEOUT 60) by (split; [lia|reflexivity]).
  assert (Hr : reachable 60 scenario_lingering).
  { exists [Add (1000, 5)%Z; Add (1061, 7)%Z]. split; [|reflexivity].
    repeat constructor; unfold is_timestamp; simpl; lia. }
  split; [exact HW|]. split; [exact Hr|].
  exact (proj1 (@constructor_finds_newest Z 60 scenario_lingering HW Hr)).
Defined.



(** X6. On a non-empty container and for [p >= 0], [get_p(p)] returns a
    value exactly when [size * p + 99 < 100 * size]; otherwise the rank
    is [size()] or more and [v[index]] is an access past the end of the
    scratch vector. *)
Theorem get_p_in_range_iff (T : Type) (V : ValueType T) (TIMEOUT : nat)
        (s : Stats T) (p : Z) :
  valid_TIMEOUT TIMEOUT -> size TIMEOUT s <> 0 ->
  (0 <= p)%Z -> (Z.of_nat (size TIMEOUT s) * p + 99 < 2 ^ 64)%Z ->
  ((exists x, get_p TIMEOUT s p = Value x)
   <-> (Z.of_nat (size TIMEOUT s) * p + 99
        < 100 * Z.of_nat (size TIMEOUT s))%Z)
  /\ (get_p TIMEOUT s p
      = Out_of_bounds (percentile_index (size TIMEOUT s) p) (size TIMEOUT s)
      <-> (100 * Z.of_nat (size TIMEOUT s)
           <= Z.of_nat (size TIMEOUT s) * p + 99)%Z).
Proof.
  intros HW Hne Hp Hsmall.
  pose proof (percentile_index_lt (size TIMEOUT s) Hp Hsmall) as Hidx.
  rewrite get_p_unfolded by assumption.
  set (v := sorted _).
  assert (Hlen : length v = size TIMEOUT s).
  { unfold v. rewrite sorted_length, length_app, length_map, repeat_length.
    rewrite Nat.add_comm. apply Nat.sub_add. apply (window_length HW). }
  destruct (nth_error v (percentile_index (size TIMEOUT s) p)) as [x|] eqn:E.
  - assert (Hlt : percentile_index (size TIMEOUT s) p < size TIMEOUT s).
    { rewrite <- Hlen. apply nth_error_Some. congruence. }
    apply Hidx in Hlt. split; split.
    + intros _. exact Hlt.
    + intros _. now exists x.
    + discriminate.
    + lia.
  - apply nth_error_None in E. rewrite Hlen in E.
    assert (Hge : ~ (Z.of_nat (size TIMEOUT s) * p + 99
                     < 100 * Z.of_nat (size TIMEOUT s))%Z).
    { intros Hlt. apply Hidx in Hlt. lia. }
    split; split.
    + intros [x Hx]. discriminate.
    + intros Hlt. contradiction.
    + intros _. lia.
    + reflexivity.
Qed.

Lemma get_p_in_range_iff_witness :
  valid_TIMEOUT 60
  /\ size 60 scenario_three <> 0
  /\ (0 <= 70)%Z
  /\ (Z.of_nat (size 60 scenario_three) * 70 + 99 < 2 ^ 64)%Z
  /\ ~ exists x, get_p 60 scenario_three 70 = Value x.
Proof.
  assert (HW : valid_TIMEOUT 60) by (split; [lia|reflexivity]).
  assert (Hne : size 60 scenario_three <> 0) by (vm_compute; lia).
  assert (Hp : (0 <= 70)%Z) by lia.
  assert (Hs : (Z.of_nat (size 60 scenario_three) * 70 + 99 < 2 ^ 64)%Z)
    by (vm_compute; reflexivity).
  split; [exact HW|]. split; [exact Hne|]. split; [exact Hp|].
  split; [exact Hs|].
  destruct (@get_p_in_range_iff Z Z_ValueType 60 scenario_three 70%Z
                                HW Hne Hp Hs) as [[Hv _] _].
  intros Hx. apply Hv in Hx. vm_compute in Hx. discriminate.
Defined.

(** X7. With a single sample [(t, v)] in a fresh container, [size()]
    is 1 and the traversal yields exactly [(t, v)], whatever [t];
    [get_p(0)] returns [v], and for every [p] from 1 to 100 (the median
    and [get_p70()] among them) the rank is 1 and [get_p] reads past the
    end of the one-element scratch vector. *)
Theorem single_sample (T : Type) (V : ValueType T) (TIMEOUT : nat)
        (t : timestamp_type) (v : T) :
  valid_TIMEOUT TIMEOUT -> is_timestamp t ->
  let s := add_ts TIMEOUT (empty_stats TIMEOUT) t v in
  size TIMEOUT s = 1
  /\ view TIMEOUT s = Some [(t, v)]
  /\ get_p TIMEOUT s 0 = Value v
  /\ forall p, (1 <= p <= 100)%Z -> get_p TIMEOUT s p = Out_of_bounds 1 1.
Proof.
  intros HW Ht s.
  assert (Hh : Forall (fun sp : StatsPair T => is_timestamp (fst sp)) [(t, v)])
    by (apply Forall_cons; [exact Ht|apply Forall_nil]).
  assert (Es : s = add_all TIMEOUT [(t, v)]) by reflexivity.
  pose proof (wf_add_all HW Hh) as Hwf. rewrite <- Es in Hwf.
  assert (Hsize : size TIMEOUT s = 1).
  { rewrite Es, (size_add_all HW Hh). reflexivity. }
  assert (Hst : stored s (t, v)).
  { unfold s, add_ts. apply (stored_added HW). apply empty_length. }
  assert (Hwin : window TIMEOUT s = [(t, v)]).
  { pose proof (window_length HW s) as Hlen. rewrite Hsize in Hlen.
    destruct (newest_live HW Hwf Hst) as [y [_ Hy]].
    assert (Hall : forall z, In z (window TIMEOUT s) -> z = (t, v)).
    { intros z Hz. apply window_stored in Hz.
      unfold s, add_ts in Hz.
      apply (stored_add HW) in Hz; [|apply empty_length].
      destruct Hz as [Hz|[i Hz]]; [exact Hz|].
      rewrite empty_bucket in Hz. destruct Hz. }
    destruct (window TIMEOUT s) as [|z [|z' l]]; simpl in Hlen.
    - destruct Hy.
    - f_equal. apply Hall. now left.
    - lia. }
  split; [exact Hsize|].
  split; [rewrite view_window by assumption; now f_equal|].
  assert (Hget : forall p,
            get_p TIMEOUT s p
            = match nth_error [v] (percentile_index 1 p) with
              | Some x => Value x
              | None => Out_of_bounds (percentile_index 1 p) 1
              end).
  { intros p. rewrite get_p_unfolded by (assumption || lia).
    rewrite Hsize, Hwin. reflexivity. }
  split; [rewrite Hget; reflexivity|].
  intros p Hp. rewrite Hget.
  assert (Hidx : percentile_index 1 p = 1).
  { unfold percentile_index, wrap64.
    rewrite Z.mod_small by lia.
    assert ((Z.of_nat 1 * p + 99) / 100 = 1)%Z; [|lia].
    symmetry. apply Z.div_unique with (r := (p - 1)%Z); lia. }
  now rewrite Hidx.
Qed.

Lemma single_sample_witness :
  valid_TIMEOUT 60
  /\ is_timestamp 1000
  /\ view 60 (add_ts 60 (empty_stats 60) 1000 5%Z) = Some [(1000, 5)]%Z
  /\ get_p70 60 (add_ts 60 (empty_stats 60) 1000 5%Z) = Out_of_bounds 1 1.
Proof.
  assert (HW : valid_TIMEOUT 60) by (split; [lia|reflexivity]).
  assert (Ht : is_timestamp 1000) by (unfold is_timestamp; lia).
  split; [exact HW|]. split; [exact Ht|].
  destruct (@single_sample Z Z_ValueType 60 1000%Z 5%Z HW Ht)
    as [_ [Hv [_ Hp]]].
  split; [exact Hv|]. apply Hp. lia.
Defined.

(** X8. [add] raises [size()] by one when its bucket is empty or already
    holds the sample's timestamp; when the bucket holds another
    timestamp, its [n] samples are discarded first and [size()] becomes
    [size() - n + 1]. *)
Theorem size_after_add (T : Type) (TIMEOUT : nat) (s : Stats T)
        (sp : StatsPair T) :
  valid_TIMEOUT TIMEOUT -> length s = TIMEOUT ->
  let b := statsBuckets s (bucket_index TIMEOUT (fst sp)) in
  (b = [] -> size TIMEOUT (add TIMEOUT s sp) = S (size TIMEOUT s))
  /\ (forall first rest,
         b = first :: rest -> fst first = fst sp ->
         size TIMEOUT (add TIMEOUT s sp) = S (size TIMEOUT s))
  /\ (forall first rest,
         b = first :: rest -> fst first <> fst sp ->
         size TIMEOUT (add TIMEOUT s sp) + length b = S (size TIMEOUT s)).
Proof.
  intros HW Hlen b. subst b.
  pose proof (size_add_bucket HW s sp) as Hsize.
  rewrite add_bucket_same in Hsize by assumption.
  split; [|split].
  - intros Eb. rewrite Eb in Hsize. simpl in Hsize. lia.
  - intros first rest Eb Heq. rewrite Eb in Hsize.
    destruct (Z.eqb_spec (fst sp) (fst first)); [|congruence].
    rewrite length_app in Hsize. simpl in *. lia.
  - intros first rest Eb Hneq. rewrite Eb in Hsize |- *.
    destruct (Z.eqb_spec (fst sp) (fst first)); [congruence|].
    simpl in *. lia.
Qed.

Lemma size_after_add_witness :
  valid_TIMEOUT 60
  /\ length scenario_three = 60
  /\ size 60 (add 60 scenario_three (1060, 1)%Z) + 2 = S (size 60 scenario_three).
Proof.
  assert (HW : valid_TIMEOUT 60) by (split; [lia|reflexivity]).
  assert (Hlen : length scenario_three = 60) by reflexivity.
  split; [exact HW|]. split; [exact Hlen|].
  destruct (@size_after_add Z 60 scenario_three (1060, 1)%Z HW Hlen)
    as [_ [_ Hev]].
  apply (Hev (1000, 10)%Z [(1000, 20)%Z]); [reflexivity|simpl; lia].
Defined.

Lemma window_newest_last {T : Type} (TIMEOUT : nat) (s : Stats T)
      (ts : timestamp_type) (v : T) :
  valid_TIMEOUT TIMEOUT -> reachable TIMEOUT s -> is_timestamp ts ->
  (forall x, stored s x -> (fst x <= ts)%Z) ->
  exists older,
    window TIMEOUT (add TIMEOUT s (ts, v)) = older ++ [(ts, v)].
Proof.
  intros HW Hr Hts Hnewest.
  pose proof (wf_reachable HW Hr) as Hwf. pose proof Hwf as [Hlen _].
  assert (Hwf' : wf TIMEOUT (add TIMEOUT s (ts, v)))
    by (apply (wf_add HW); assumption).
  pose proof (@stored_added T TIMEOUT HW s (ts, v) Hlen) as Hst.
  assert (Hmax : fst (ctor_scan TIMEOUT (add TIMEOUT s (ts, v))) = ts).
  { pose proof (scan_max_ge Hwf' Hst) as Hge. cbn [fst] in Hge.
    destruct (scan_max_bucket Hwf' Hst) as [first [rest [Eb Hf]]].
    assert (Hfirst : stored (add TIMEOUT s (ts, v)) first)
      by (eexists; rewrite Eb; now left).
    apply (stored_add HW) in Hfirst; [|exact Hlen].
    rewrite <- Hf in *. destruct Hfirst as [->|Hfirst]; [reflexivity|].
    specialize (Hnewest first Hfirst). lia. }
  pose proof (scan_index_max Hwf' Hst) as Himax. rewrite Hmax in Himax.
  unfold window.
  destruct (window_from_ends TIMEOUT (add TIMEOUT s (ts, v))
              (snd (ctor_scan TIMEOUT (add TIMEOUT s (ts, v))))
              (wrap64 (fst (ctor_scan TIMEOUT (add TIMEOUT s (ts, v)))
                       - Z.of_nat TIMEOUT))
              (TIMEOUT - 1)) as [older ->].
  rewrite Himax.
  change (bucket_index TIMEOUT ts)
    with (bucket_index TIMEOUT (fst (ts, v))).
  rewrite add_bucket_same by assumption.
  eexists. rewrite app_assoc. reflexivity.
Qed.

(** X9. In a reachable state, a sample added with a timestamp not older
    than any stored one is the last sample the traversal yields, when
    afterwards no sample the loop can stop on lies at the address
    [end()] holds. *)
Theorem newest_sample_last (T : Type) (TIMEOUT : nat) (L : layout)
        (s : Stats T) (ts : timestamp_type) (v : T) :
  valid_TIMEOUT TIMEOUT -> reachable TIMEOUT s -> is_timestamp ts ->
  (forall x, stored s x -> (fst x <= ts)%Z) ->
  separated TIMEOUT L (add_ts TIMEOUT s ts v) = true ->
  exists older,
    view_raw TIMEOUT L (add_ts TIMEOUT s ts v) = Some (older ++ [(ts, v)]).
Proof.
  intros HW Hr Hts Hnewest Hsep. unfold add_ts in *.
  destruct (window_newest_last v HW Hr Hts Hnewest) as [older Hw].
  exists older. rewrite (view_raw_separated HW _ _ Hsep). now f_equal.
Qed.

Lemma newest_sample_last_witness :
  valid_TIMEOUT 60
  /\ reachable 60 scenario_lingering
  /\ is_timestamp 1061
  /\ (forall x, stored scenario_lingering x -> (fst x <= 1061)%Z)
  /\ separated 60 spaced_layout (add_ts 60 scenario_lingering 1061 8%Z)
     = true
  /\ exists older,
      view_raw 60 spaced_layout (add_ts 60 scenario_lingering 1061 8%Z)
      = Some (older ++ [(1061, 8)]%Z).
Proof.
  assert (HW : valid_TIMEOUT 60) by (split; [lia|reflexivity]).
  assert (Hr : reachable 60 scenario_lingering).
  { exists [Add (1000, 5)%Z; Add (1061, 7)%Z]. split; [|reflexivity].
    repeat constructor; unfold is_timestamp; simpl; lia. }
  assert (Hts : is_timestamp 1061) by (unfold is_timestamp; lia).
  assert (Hn : forall x, stored scenario_lingering x -> (fst x <= 1061)%Z).
  { intros x Hx. apply stored_concat in Hx. vm_compute in Hx.
    destruct Hx as [<-|[<-|[]]]; simpl; lia. }
  assert (Hs : separated 60 spaced_layout
                         (add_ts 60 scenario_lingering 1061 8%Z) = true)
    by (vm_compute; reflexivity).
  split; [exact HW|]. split; [exact Hr|]. split; [exact Hts|].
  split; [exact Hn|]. split; [exact Hs|].
  exact (@newest_sample_last Z 60 spaced_layout scenario_lingering
                             1061%Z 8%Z HW Hr Hts Hn Hs).
Defined.

Lemma window_sliding {T : Type} (TIMEOUT : nat) (h : list (StatsPair T)) :
  valid_TIMEOUT TIMEOUT ->
  Forall (fun sp : StatsPair T => is_timestamp (fst sp)) h ->
  StronglySorted (@ts_le T) h ->
  (Z.of_nat TIMEOUT <= t_max h)%Z ->
  window TIMEOUT (add_all TIMEOUT h) = filter (recent TIMEOUT (t_max h)) h.
Proof.
  intros HW Hts Hmono Hge. pose proof HW as [Hpos _].
  assert (Hne : h <> []).
  { intros ->. unfold t_max in Hge. simpl in Hge. lia. }
  pose proof (wf_add_all HW Hts) as Hwf.
  pose proof (monotone_scan_max HW Hts Hmono Hne) as Hmax.
  apply sorted_groups_eq.
  - apply (window_from_sorted HW Hwf). lia.
  - now apply StronglySorted_filter_ts.
  - intros t.
    destruct (Z.lt_ge_cases (t_max h - Z.of_nat TIMEOUT) t) as [Ht|Ht].
    + rewrite (window_group HW Hts Hmono Ht).
      * symmetry. apply filter_filter_implies.
        intros z _ Hz. apply Z.eqb_eq in Hz.
        unfold recent. apply Z.ltb_lt. lia.
      * intros z Hz Ez. unfold window.
        apply (window_complete HW Hwf).
        -- now rewrite Hmax.
        -- apply (recent_stored HW Hts Hmono); [exact Hz|lia].
        -- rewrite Hmax. lia.
    + rewrite !filter_none; [reflexivity| |].
      * intros z Hz. apply filter_In in Hz. destruct Hz as [_ Hz].
        unfold recent in Hz. apply Z.ltb_lt in Hz.
        apply Z.eqb_neq. lia.
      * intros z Hz. apply (window_bounds HW Hwf) in Hz.
        rewrite Hmax in Hz. apply Z.eqb_neq. lia.
Qed.

(** X10. When samples are added to a fresh container with timestamps
    that never decrease and the last timestamp [now] is at least
    [TIMEOUT], the traversal yields, in the order they were added, a
    beginning of the samples added with a timestamp above
    [now - TIMEOUT]: all of them when no sample the loop can stop on lies
    at the address [end()] holds. *)
Theorem view_sliding_window (T : Type) (TIMEOUT : nat) (L : layout)
        (h : list (StatsPair T)) :
  valid_TIMEOUT TIMEOUT ->
  Forall (fun sp : StatsPair T => is_timestamp (fst sp)) h ->
  StronglySorted (@ts_le T) h ->
  (Z.of_nat TIMEOUT <= t_max h)%Z ->
  exists l rest,
    view_raw TIMEOUT L (add_all TIMEOUT h) = Some l
    /\ filter (recent TIMEOUT (t_max h)) h = l ++ rest
    /\ (separated TIMEOUT L (add_all TIMEOUT h) = true -> rest = []).
Proof.
  intros HW Hts Hmono Hge.
  destruct (view_raw_prefix HW L (add_all TIMEOUT h))
    as [l [rest [Hv [Hw Hfull]]]].
  exists l, rest. split; [exact Hv|]. split; [|exact Hfull].
  rewrite <- Hw. symmetry. now apply window_sliding.
Qed.

Lemma view_sliding_window_witness :
  valid_TIMEOUT 3
  /\ Forall (fun sp : StatsPair Z => is_timestamp (fst sp))
            [(100, 1); (101, 2); (102, 3); (103, 4)]%Z
  /\ StronglySorted (@ts_le Z) [(100, 1); (101, 2); (102, 3); (103, 4)]%Z
  /\ (Z.of_nat 3 <= t_max [(100, 1); (101, 2); (102, 3); (103, 4)]%Z)%Z
  /\ separated 3 spaced_layout
               (add_all 3 [(100, 1); (101, 2); (102, 3); (103, 4)]%Z) = true
  /\ view_raw 3 spaced_layout
              (add_all 3 [(100, 1); (101, 2); (102, 3); (103, 4)]%Z)
     = Some [(101, 2); (102, 3); (103, 4)]%Z.
Proof.
  assert (HW : valid_TIMEOUT 3) by (split; [lia|reflexivity]).
  assert (Hts : Forall (fun sp : StatsPair Z => is_timestamp (fst sp))
                       [(100, 1); (101, 2); (102, 3); (103, 4)]%Z)
    by (repeat constructor; unfold is_timestamp; simpl; lia).
  assert (Hm : StronglySorted (@ts_le Z)
                              [(100, 1); (101, 2); (102, 3); (103, 4)]%Z)
    by (repeat constructor; unfold ts_le; simpl; lia).
  assert (Hge : (Z.of_nat 3
                 <= t_max [(100, 1); (101, 2); (102, 3); (103, 4)]%Z)%Z)
    by (vm_compute; discriminate).
  assert (Hs : separated 3 spaced_layout
                 (add_all 3 [(100, 1); (101, 2); (102, 3); (103, 4)]%Z)
               = true) by (vm_compute; reflexivity).
  split; [exact HW|]. split; [exact Hts|]. split; [exact Hm|].
  split; [exact Hge|]. split; [exact Hs|].
  destruct (@view_sliding_window Z 3 spaced_layout _ HW Hts Hm Hge)
    as [l [rest [Hl [Hw Hfull]]]].
  rewrite (Hfull Hs), app_nil_r in Hw. rewrite Hl, <- Hw. reflexivity.
Defined.

(** X11. When samples are added to a fresh container with timestamps
    that never decrease and the last timestamp [now] is below [TIMEOUT],
    the subtraction [now - TIMEOUT] wraps around and the traversal yields
    only the samples added with the timestamp [now], in the order they
    were added. *)
Theorem view_first_seconds (T : Type) (TIMEOUT : nat)
        (h : list (StatsPair T)) :
  valid_TIMEOUT TIMEOUT ->
  Forall (fun sp : StatsPair T => is_timestamp (fst sp)) h ->
  StronglySorted (@ts_le T) h ->
  h <> [] ->
  (t_max h < Z.of_nat TIMEOUT)%Z ->
  view TIMEOUT (add_all TIMEOUT h)
  = Some (filter (same_ts (t_max h)) h).
Proof.
  intros HW Hts Hmono Hne Hlt. pose proof HW as [Hpos _].
  pose proof (wf_add_all HW Hts) as Hwf.
  pose proof (monotone_scan_max HW Hts Hmono Hne) as Hmax.
  rewrite view_window by assumption. f_equal.
  apply sorted_groups_eq.
  - apply (window_from_sorted HW Hwf). lia.
  - now apply StronglySorted_filter_ts.
  - intros t. destruct (Z.eq_dec t (t_max h)) as [->|Hneq].
    + rewrite (window_group HW Hts Hmono); [| lia |].
      * symmetry. now apply filter_filter_implies.
      * intros z Hz Ez. unfold window. apply window_from_max.
        assert (Hst : stored (add_all TIMEOUT h) z)
          by (apply (recent_stored HW Hts Hmono); [exact Hz|lia]).
        rewrite (scan_index_max Hwf Hst), Hmax, <- Ez.
        destruct Hst as [i Hi]. destruct Hwf as [_ Hb].
        destruct (Hb i z Hi) as [_ [Hidx _]]. now rewrite Hidx.
    + rewrite !filter_none; [reflexivity| |].
      * intros z Hz. apply filter_In in Hz. destruct Hz as [_ Hz].
        apply Z.eqb_eq in Hz. apply Z.eqb_neq. congruence.
      * intros z Hz.
        pose proof (window_first_seconds HW Hts Hmono Hne z Hlt Hz) as Ez.
        apply Z.eqb_neq. congruence.
Qed.

Lemma view_first_seconds_witness :
  valid_TIMEOUT 60
  /\ Forall (fun sp : StatsPair Z => is_timestamp (fst sp))
            [(1, 10); (2, 20); (2, 30)]%Z
  /\ StronglySorted (@ts_le Z) [(1, 10); (2, 20); (2, 30)]%Z
  /\ [(1, 10); (2, 20); (2, 30)]%Z <> []
  /\ (t_max [(1, 10); (2, 20); (2, 30)]%Z < Z.of_nat 60)%Z
  /\ view 60 (add_all 60 [(1, 10); (2, 20); (2, 30)]%Z)
     = Some [(2, 20); (2, 30)]%Z.
Proof.
  assert (HW : valid_TIMEOUT 60) by (split; [lia|reflexivity]).
  assert (Hts : Forall (fun sp : StatsPair Z => is_timestamp (fst sp))
                       [(1, 10); (2, 20); (2, 30)]%Z)
    by (repeat constructor; unfold is_timestamp; simpl; lia).
  assert (Hm : StronglySorted (@ts_le Z) [(1, 10); (2, 20); (2, 30)]%Z)
    by (repeat constructor; unfold ts_le; simpl; lia).
  assert (Hne : [(1, 10); (2, 20); (2, 30)]%Z <> []) by discriminate.
  assert (Hlt : (t_max [(1, 10); (2, 20); (2, 30)]%Z < Z.of_nat 60)%Z)
    by (vm_compute; reflexivity).
  split; [exact HW|]. split; [exact Hts|]. split; [exact Hm|].
  split; [exact Hne|]. split; [exact Hlt|].
  exact (@view_first_seconds Z 60 _ HW Hts Hm Hne Hlt).
Defined.

(** ** Further properties of the percentile *)

Lemma get_p_value_iff_rank {T : Type} `{ValueType T} (TIMEOUT : nat)
      (s : Stats T) (p : Z) :
  valid_TIMEOUT TIMEOUT -> size TIMEOUT s <> 0 ->
  (exists x, get_p TIMEOUT s p = Value x)
  <-> percentile_index (size TIMEOUT s) p < size TIMEOUT s.
Proof.
  intros HW Hne. rewrite get_p_unfolded by assumption.
  set (v := sorted _).
  assert (Hlen : length v = size TIMEOUT s).
  { unfold v. rewrite sorted_length, length_app, length_map, repeat_length.
    rewrite Nat.add_comm. apply Nat.sub_add. apply (window_length HW). }
  destruct (nth_error v (percentile_index (size TIMEOUT s) p)) as [x|] eqn:E.
  - split; [|intros _; now exists x].
    intros _.
    assert (Hlt : percentile_index (size TIMEOUT s) p < length v)
      by (apply nth_error_Some; congruence).
    lia.
  - split; [intros [x Hx]; discriminate|].
    intros Hlt. apply nth_error_None in E. lia.
Qed.

Lemma sorted_nth_le (l : list Z) :
  StronglySorted Z.le l ->
  forall i j x y,
    i <= j -> nth_error l i = Some x -> nth_error l j = Some y ->
    (x <= y)%Z.
Proof.
  induction 1 as [|a l Hs IH Ha]; intros i j x y Hij Hx Hy.
  - destruct i; discriminate.
  - destruct i as [|i], j as [|j]; simpl in *; try lia.
    + inversion Hx; inversion Hy; subst. lia.
    + inversion Hx; subst. apply nth_error_In in Hy.
      rewrite Forall_forall in Ha. now apply Ha.
    + apply (IH i j); [lia|assumption|assumption].
Qed.

Lemma percentile_index_mono (sz : nat) (p q : Z) :
  (0 <= p <= q)%Z -> (Z.of_nat sz * q + 99 < 2 ^ 64)%Z ->
  percentile_index sz p <= percentile_index sz q.
Proof.
  intros Hpq Hsmall. unfold percentile_index, wrap64.
  assert (Hle : (Z.of_nat sz * p <= Z.of_nat sz * q)%Z)
    by (apply Z.mul_le_mono_nonneg_l; lia).
  assert (Hnn : (0 <= Z.of_nat sz * p)%Z)
    by (apply Z.mul_nonneg_nonneg; lia).
  rewrite !Z.mod_small by lia.
  apply Z2Nat.inj_le; try (apply Z.div_pos; lia).
  apply Z.div_le_mono; lia.
Qed.

(** X12. [get_p70()] returns a value exactly when at least four samples
    are stored; with one, two or three samples the rank equals
    [size()] and the call reads past the end of the scratch vector. *)
Theorem get_p70_needs_four (T : Type) (V : ValueType T) (TIMEOUT : nat)
        (s : Stats T) :
  valid_TIMEOUT TIMEOUT -> size TIMEOUT s <> 0 ->
  (Z.of_nat (size TIMEOUT s) < 2 ^ 56)%Z ->
  ((exists x, get_p70 TIMEOUT s = Value x) <-> 4 <= size TIMEOUT s)
  /\ (size TIMEOUT s <= 3 ->
      get_p70 TIMEOUT s
      = Out_of_bounds (size TIMEOUT s) (size TIMEOUT s)).
Proof.
  intros HW Hne Hsmall. unfold get_p70.
  assert (H56 : (2 ^ 56 * 70 + 99 < 2 ^ 64)%Z) by reflexivity.
  assert (Hs : (Z.of_nat (size TIMEOUT s) * 70 + 99 < 2 ^ 64)%Z) by lia.
  pose proof (percentile_index_lt (size TIMEOUT s) (p := 70)
                                  ltac:(lia) Hs) as Hidx.
  split.
  - rewrite (@get_p_value_iff_rank T V TIMEOUT s 70%Z HW Hne), Hidx. lia.
  - intros H3. rewrite get_p_unfolded by assumption.
    assert (Ei : percentile_index (size TIMEOUT s) 70 = size TIMEOUT s).
    { unfold percentile_index, wrap64. rewrite Z.mod_small by lia.
      destruct (size TIMEOUT s) as [|[|[|[|n]]]]; try lia; reflexivity. }
    rewrite Ei.
    destruct (nth_error _ (size TIMEOUT s)) eqn:E; [|reflexivity].
    exfalso.
    assert (Hlt : size TIMEOUT s
                  < length (sorted
                              (map snd (window TIMEOUT s)
                               ++ repeat value_init
                                    (size TIMEOUT s
                                     - length (window TIMEOUT s)))))
      by (apply nth_error_Some; congruence).
    rewrite sorted_length, length_app, length_map, repeat_length in Hlt.
    pose proof (window_length HW s) as Hw.
    rewrite Nat.add_comm, Nat.sub_add in Hlt by exact Hw. lia.
Qed.

Lemma get_p70_needs_four_witness :
  valid_TIMEOUT 60
  /\ size 60 scenario_same_second <> 0
  /\ (Z.of_nat (size 60 scenario_same_second) < 2 ^ 56)%Z
  /\ exists x, get_p70 60 scenario_same_second = Value x.
Proof.
  assert (HW : valid_TIMEOUT 60) by (split; [lia|reflexivity]).
  assert (Hne : size 60 scenario_same_second <> 0) by (vm_compute; lia).
  assert (Hs : (Z.of_nat (size 60 scenario_same_second) < 2 ^ 56)%Z)
    by (vm_compute; reflexivity).
  split; [exact HW|]. split; [exact Hne|]. split; [exact Hs|].
  destruct (@get_p70_needs_four Z Z_ValueType 60 scenario_same_second
                                HW Hne Hs) as [[_ H4] _].
  apply H4. vm_compute. lia.
Defined.



(** X14. On a container of integers the percentile grows with [p]: for
    [0 <= p <= q], when [get_p(p)] and [get_p(q)] both return a value,
    the first is at most the second. *)
Theorem get_p_monotone (TIMEOUT : nat) (s : Stats Z) (p q x y : Z) :
  valid_TIMEOUT TIMEOUT ->
  (0 <= p <= q)%Z -> (Z.of_nat (size TIMEOUT s) * q + 99 < 2 ^ 64)%Z ->
  get_p TIMEOUT s p = Value x -> get_p TIMEOUT s q = Value y ->
  (x <= y)%Z.
Proof.
  intros HW Hpq Hsmall Hx Hy.
  assert (Hne : size TIMEOUT s <> 0).
  { intros E. apply (get_p_throw_iff TIMEOUT s p) in E. congruence. }
  rewrite (@get_p_unfolded Z Z_ValueType TIMEOUT HW s p Hne) in Hx.
  rewrite (@get_p_unfolded Z Z_ValueType TIMEOUT HW s q Hne) in Hy.
  destruct (nth_error _ (percentile_index (size TIMEOUT s) p))
    as [x'|] eqn:Ex; [|discriminate].
  destruct (nth_error _ (percentile_index (size TIMEOUT s) q))
    as [y'|] eqn:Ey; [|discriminate].
  inversion Hx; inversion Hy; subst.
  apply (sorted_nth_le (sorted_Z _)
           (percentile_index_mono (size TIMEOUT s) Hpq Hsmall) Ex Ey).
Qed.

Lemma get_p_monotone_witness :
  valid_TIMEOUT 60
  /\ (0 <= 50 <= 90)%Z
  /\ (Z.of_nat (size 60 scenario_same_second) * 90 + 99 < 2 ^ 64)%Z
  /\ get_p 60 scenario_same_second 50 = Value 6%Z
  /\ get_p 60 scenario_same_second 90 = Value 10%Z
  /\ (6 <= 10)%Z.
Proof.
  assert (HW : valid_TIMEOUT 60) by (split; [lia|reflexivity]).
  assert (Hpq : (0 <= 50 <= 90)%Z) by lia.
  assert (Hs : (Z.of_nat (size 60 scenario_same_second) * 90 + 99
                < 2 ^ 64)%Z) by (vm_compute; reflexivity).
  assert (Hx : get_p 60 scenario_same_second 50 = Value 6%Z)
    by (vm_compute; reflexivity).
  assert (Hy : get_p 60 scenario_same_second 90 = Value 10%Z)
    by (vm_compute; reflexivity).
  split; [exact HW|]. split; [exact Hpq|]. split; [exact Hs|].
  split; [exact Hx|]. split; [exact Hy|].
  exact (@get_p_monotone 60 scenario_same_second 50 90 6 10
                         HW Hpq Hs Hx Hy).
Defined.

(** ** Further properties of the container as a whole *)

Lemma it_neq_false_raw (L : layout) (a b : statsBucketsIterator) :
  it_neq a b = false -> it_neq_raw L a b = false.
Proof.
  unfold it_neq, it_neq_raw, sv_eqb, sv_address. intros E.
  apply negb_false_iff, andb_true_iff in E. destruct E as [Eb Eo].
  apply Nat.eqb_eq in Eb, Eo. rewrite Eb, Eo.
  apply negb_false_iff, Z.eqb_refl.
Qed.

(** X15. In every reachable state [begin()] compares equal to [end()]
    when the container is empty; and when they compare equal the
    container is empty, provided no sample the loop can stop on lies at
    the address [end()] holds. *)
Theorem begin_is_end_iff_empty (T : Type) (TIMEOUT : nat) (L : layout)
        (s : Stats T) :
  valid_TIMEOUT TIMEOUT -> reachable TIMEOUT s ->
  exists b,
    begin_ TIMEOUT s = Some b
    /\ (size TIMEOUT s = 0 -> it_neq_raw L b (end_ TIMEOUT s) = false)
    /\ (separated TIMEOUT L s = true ->
        it_neq_raw L b (end_ TIMEOUT s) = false -> size TIMEOUT s = 0).
Proof.
  intros HW Hr. pose proof (wf_reachable HW Hr) as Hwf.
  pose proof (view_window HW s) as Hview. unfold view in Hview.
  destruct (begin_ TIMEOUT s) as [b|] eqn:Eb; [|discriminate].
  exists b. split; [reflexivity|]. cbn [obind] in Hview. split.
  - intros Hsize. rewrite Hsize in Hview. simpl in Hview.
    apply it_neq_false_raw.
    destruct (it_neq b (end_ TIMEOUT s)); [discriminate|reflexivity].
  - intros Hsep Hraw.
    pose proof (view_raw_separated HW L s Hsep) as Hv.
    unfold view_raw in Hv. rewrite Eb in Hv. cbn [obind] in Hv.
    destruct (size TIMEOUT s) as [|n] eqn:Esize; [reflexivity|].
    exfalso. cbn [iterate_raw] in Hv. rewrite Hraw in Hv.
    assert (Hnil : window TIMEOUT s = []) by congruence.
    pose proof (proj2 (no_stored_iff_window_nil HW Hwf) Hnil) as Hnone.
    pose proof (proj2 (size_zero_iff Hwf) Hnone) as H0. congruence.
Qed.

Lemma begin_is_end_iff_empty_witness :
  valid_TIMEOUT 60
  /\ reachable 60 scenario_lingering
  /\ separated 60 spaced_layout scenario_lingering = true
  /\ exists b, begin_ 60 scenario_lingering = Some b
               /\ it_neq_raw spaced_layout b (end_ 60 scenario_lingering)
                  = true.
Proof.
  assert (HW : valid_TIMEOUT 60) by (split; [lia|reflexivity]).
  assert (Hr : reachable 60 scenario_lingering).
  { exists [Add (1000, 5)%Z; Add (1061, 7)%Z]. split; [|reflexivity].
    repeat constructor; unfold is_timestamp; simpl; lia. }
  assert (Hs : separated 60 spaced_layout scenario_lingering = true)
    by (vm_compute; reflexivity).
  split; [exact HW|]. split; [exact Hr|]. split; [exact Hs|].
  destruct (@begin_is_end_iff_empty Z 60 spaced_layout scenario_lingering
                                    HW Hr) as [b [Hb [_ Hemp]]].
  exists b. split; [exact Hb|].
  destruct (it_neq_raw spaced_layout b (end_ 60 scenario_lingering));
    [reflexivity|].
  assert (H0 : size 60 scenario_lingering = 0) by now apply Hemp.
  vm_compute in H0. discriminate.
Defined.

(** X16. A call of [clear()] forgets everything before it: the state
    after any calls, a [clear()] and further calls is the state the
    further calls alone produce on a fresh container. *)
Theorem clear_forgets (T : Type) (TIMEOUT : nat) (ops ops' : list (op T)) :
  valid_TIMEOUT TIMEOUT -> Forall valid_op ops ->
  run TIMEOUT (ops ++ Clear :: ops') = run TIMEOUT ops'.
Proof.
  intros HW Hv. destruct (wf_run HW Hv) as [Hlen _].
  unfold run in *. rewrite fold_left_app. cbn [fold_left exec].
  now rewrite clear_empty.
Qed.

Lemma clear_forgets_witness :
  valid_TIMEOUT 60
  /\ Forall valid_op [Add (1000, 5)%Z; Add (1061, 7)%Z]
  /\ run 60 ([Add (1000, 5)%Z; Add (1061, 7)%Z]
             ++ Clear :: [Add (2000, 1)%Z])
     = run 60 [Add (2000, 1)%Z].
Proof.
  assert (HW : valid_TIMEOUT 60) by (split; [lia|reflexivity]).
  assert (Hv : Forall valid_op [Add (1000, 5)%Z; Add (1061, 7)%Z])
    by (repeat constructor; unfold is_timestamp; simpl; lia).
  split; [exact HW|]. split; [exact Hv|].
  exact (@clear_forgets Z 60 _ [Add (2000, 1)%Z] HW Hv).
Defined.

Lemma StronglySorted_prefix {A : Type} (R : A -> A -> Prop) (l r : list A) :
  StronglySorted R (l ++ r) -> StronglySorted R l.
Proof.
  induction l as [|x l IH]; simpl; intros Hs; [constructor|].
  inversion Hs as [|? ? Hs' Hx]; subst. constructor; [now apply IH|].
  apply Forall_app in Hx. tauto.
Qed.

(** X17. In every reachable state and under every layout of the storage,
    the samples the loop from [begin()] to [end()] yields are live and in
    non-decreasing timestamp order, and those it yields for one
    timestamp are consecutive [add] calls made with that timestamp, in
    call order. Once the largest stored timestamp has reached [TIMEOUT],
    and when no sample the loop can stop on lies at the address [end()]
    holds, every live sample is yielded. *)
Theorem traversal_time_ordered (T : Type) (TIMEOUT : nat) (L : layout)
        (ops : list (op T)) :
  valid_TIMEOUT TIMEOUT -> Forall valid_op ops ->
  exists l,
    view_raw TIMEOUT L (run TIMEOUT ops) = Some l
    /\ (forall x, In x l -> live TIMEOUT (run TIMEOUT ops) x)
    /\ StronglySorted (@ts_le T) l
    /\ (forall t, exists earlier later,
          filter (same_ts t) (added ops)
          = earlier ++ filter (same_ts t) l ++ later)
    /\ ((Z.of_nat TIMEOUT <= t_max (concat (run TIMEOUT ops)))%Z ->
        separated TIMEOUT L (run TIMEOUT ops) = true ->
        forall x, live TIMEOUT (run TIMEOUT ops) x -> In x l).
Proof.
  intros HW Hv. pose proof (wf_run HW Hv) as Hwf.
  pose proof HW as [Hpos _].
  destruct (view_raw_prefix HW L (run TIMEOUT ops))
    as [l [rest [Hview [Hw Hfull]]]].
  exists l. split; [exact Hview|].
  split.
  { intros x Hx. apply (window_live HW Hwf). rewrite Hw.
    apply in_or_app. now left. }
  split.
  { apply StronglySorted_prefix with (r := rest). rewrite <- Hw.
    apply (window_from_sorted HW Hwf). lia. }
  split.
  - intros t.
    assert (Hgroup : exists earlier,
               filter (same_ts t) (added ops)
               = earlier ++ filter (same_ts t) (window TIMEOUT (run TIMEOUT ops))).
    { destruct (@window_from_filter T TIMEOUT HW _ Hwf t (TIMEOUT - 1))
        as [Hnil|[i [first [rest' [Eb [Hts Hf]]]]]]; [lia| |].
      - exists (filter (same_ts t) (added ops)).
        unfold window. rewrite Hnil. now rewrite app_nil_r.
      - destruct (bucket_history HW Hv _ Eb) as [earlier He].
        exists earlier. unfold window. rewrite Hf, <- Hts. exact He. }
    destruct Hgroup as [earlier He].
    exists earlier, (filter (same_ts t) rest).
    now rewrite He, Hw, filter_app.
  - intros Hge Hsep x [Hst Hlive].
    rewrite (Hfull Hsep), app_nil_r in Hw. rewrite <- Hw. unfold window.
    pose proof (stored_t_max_eq Hwf Hst) as Emax.
    apply (window_complete HW Hwf); [lia|exact Hst|lia].
Qed.

Lemma traversal_time_ordered_witness :
  valid_TIMEOUT 60
  /\ Forall valid_op [Add (1000, 5)%Z; Add (1000, 6)%Z; Add (1030, 7)%Z]
  /\ exists l,
      view_raw 60 packed_layout
               (run 60 [Add (1000, 5)%Z; Add (1000, 6)%Z; Add (1030, 7)%Z])
      = Some l
      /\ StronglySorted (@ts_le Z) l.
Proof.
  assert (HW : valid_TIMEOUT 60) by (split; [lia|reflexivity]).
  assert (Hv : Forall valid_op
                      [Add (1000, 5)%Z; Add (1000, 6)%Z; Add (1030, 7)%Z])
    by (repeat constructor; unfold is_timestamp; simpl; lia).
  split; [exact HW|]. split; [exact Hv|].
  destruct (@traversal_time_ordered Z 60 packed_layout _ HW Hv)
    as [l [Hl [_ [Hs _]]]].
  exists l. split; [exact Hl|exact Hs].
Defined.
